(** * DeepRetail: the readers of [casereaders.py]

    A shallow embedding of [src/DeepRetail/data/casereaders.py]: the
    chunked reader [read_case_1] (lines 58-165), together with the part
    of pandas it calls ([pivot_table], [resample(...).sum()],
    [concat(axis=1)] and [to_csv]), and the readers [read_case_0] and
    [read_case_3].

    Conventions of the embedding.
    - A timestamp is a calendar day, the number of days since 1970-01-01
      (a [Z]); [datetime.timedelta(days=n)] is the integer [n].  [NaT] is
      [None].
    - Quantities ([y], [Inuit]) are integers and [NaN] is [None].  The
      code holds [y] as [float32] and [Inuit] as [float64] and adds them
      as floats; the sums of the model are the sums of the code where no
      rounding occurs, that is while the absolute values of the
      quantities add up to at most [2 ^ 24] ([exact32]) or [2 ^ 53]
      ([exact64]).  The statements about sums carry that hypothesis.
    - The long frame [df], with its columns named as on line 96, is the
      list of its rows in file order.  Its column [Item] is read as a
      [category], chunk by chunk (lines 71-93): it stays categorical when
      every chunk of [10 ** 6] rows holds the same items, and is a column
      of plain strings otherwise ([Item_categories]).
    - A wide frame is a table: the list of its column labels (pandas
      allows duplicates, and so does the list) and one row of cells per
      index label.
    - pandas defaults are written out: ["W"] is [W-SUN] and ["M"] is the
      month end, bins closed and labelled on the right; the sum of an
      empty bin is 0; a pivot on a categorical index has a row for every
      category ([observed=False]); [concat] joins the indexes outer,
      unsorted; [groupby] leaves out the rows with a missing key.  The
      pivot of a chunk without rows has no column to resample, and
      [.resample] raises.
    - [to_csv] acts on an explicit world: the disk, and the outcomes of
      the write attempts to come.  Exceptions are values of type [exn]. *)

From Stdlib Require Import ZArith List String Ascii Bool Lia.
From Stdlib Require Import Sorting.Sorted Sorting.Permutation Structures.OrdersEx.
From Stdlib Require Import Classes.RelationClasses.
Import ListNotations.
Open Scope Z_scope.

(* ================================================================= *)
(** ** Calendar *)

Module Calendar.

(** Day number of the civil date [yr-m-d] (proleptic Gregorian),
    counted from 1970-01-01. *)
Definition days_from_civil (yr m d : Z) : Z :=
  let yr' := if m <=? 2 then yr - 1 else yr in
  let era := yr' / 400 in
  let yoe := yr' - era * 400 in
  let mp := if m <=? 2 then m + 9 else m - 3 in
  let doy := (153 * mp + 2) / 5 + d - 1 in
  let doe := yoe * 365 + yoe / 4 - yoe / 100 + doy in
  era * 146097 + doe - 719468.

(** [Timestamp.weekday()]: Monday is 0 and Sunday is 6.
    1970-01-01 was a Thursday. *)
Definition weekday (t : Z) : Z := (t + 3) mod 7.

Definition is_leap (yr : Z) : bool :=
  ((yr mod 4 =? 0) && negb (yr mod 100 =? 0)) || (yr mod 400 =? 0).

Definition days_in_month (yr m : Z) : Z :=
  if m =? 2 then (if is_leap yr then 29 else 28)
  else if (m =? 4) || (m =? 6) || (m =? 9) || (m =? 11) then 30
  else 31.

(** The last days of [n] successive months, the first of which is
    month [m] of year [yr] and begins on day [day]. *)
Fixpoint month_ends_from (n : nat) (yr m day : Z) : list Z :=
  match n with
  | O => []
  | S n' =>
      let e := day + days_in_month yr m - 1 in
      e :: month_ends_from n'
             (if m =? 12 then yr + 1 else yr)
             (if m =? 12 then 1 else m + 1)
             (e + 1)
  end.

(** The Gregorian calendar repeats every 400 years, that is every
    146097 days.  [cycle_month_ends] lists the month ends of the cycle
    that starts on 2000-01-01, as offsets from that day. *)
Definition cycle_days : Z := 146097.
Definition cycle_start : Z := 10957.  (* 2000-01-01 *)
Definition cycle_month_ends : list Z :=
  Eval vm_compute in month_ends_from 4800 2000 1 0.

(** First element of [l] that is at least [r]; [r] itself when there is
    none. *)
Fixpoint find_ge (r : Z) (l : list Z) : Z :=
  match l with
  | [] => r
  | x :: l' => if r <=? x then x else find_ge r l'
  end.

(** Last day of the month that contains day [t]. *)
Definition month_end (t : Z) : Z :=
  let u := t - cycle_start in
  cycle_start + cycle_days * (u / cycle_days)
  + find_ge (u mod cycle_days) cycle_month_ends.

(** The Sunday on or after day [t]. *)
Definition week_end (t : Z) : Z := t + (6 - weekday t).

(** Checks on the table: it is strictly increasing and stays within one
    cycle. *)
Fixpoint sortedb (l : list Z) : bool :=
  match l with
  | [] => true
  | x :: l' =>
      match l' with
      | [] => true
      | x' :: _ => (x <? x') && sortedb l'
      end
  end.

Definition in_cycle (x : Z) : bool := (0 <=? x) && (x <? cycle_days).


End Calendar.

(* ================================================================= *)
(** ** pandas: offsets, frames, pivot, resample, concat *)

(** The two offset aliases [read_case_1] lets through: ["W"] is
    [Week(weekday=6)] (weeks closing on Sunday) and ["M"] is [MonthEnd]. *)
Inductive offset : Type := Week_SUN | MonthEnd.

Definition to_offset (freq : string) : option offset :=
  if (freq =? "W")%string then Some Week_SUN
  else if (freq =? "M")%string then Some MonthEnd
  else None.

(** [offset.rollforward]: the first anchor of the offset on or after [t]. *)
Definition rollforward (o : offset) (t : Z) : Z :=
  match o with
  | Week_SUN => Calendar.week_end t
  | MonthEnd => Calendar.month_end t
  end.

(** A cell of a wide frame; [None] is [NaN]. *)
Definition cell : Type := option Z.

Record DataFrame : Type := mkDataFrame
  { columns : list Z;                     (* column labels, in order *)
    rows : list (string * list cell) }.   (* index label and its cells *)

Definition index (t : DataFrame) : list string := map fst (rows t).

Definition empty_frame : DataFrame := {| columns := []; rows := [] |}.

(** [t.loc[i]]: the cells of the row labelled [i]. *)
Fixpoint lookup_row (i : string) (l : list (string * list cell))
  : option (list cell) :=
  match l with
  | [] => None
  | (j, r) :: l' => if (i =? j)%string then Some r else lookup_row i l'
  end.

Definition loc (t : DataFrame) (i : string) : option (list cell) :=
  lookup_row i (rows t).

(** [t.loc[i, c]]: with duplicated column labels pandas returns every
    cell of row [i] whose column is labelled [c]. *)
Definition cells_at (t : DataFrame) (i : string) (c : Z) : list cell :=
  match loc t i with
  | None => []
  | Some r => map snd (filter (fun p => fst p =? c) (combine (columns t) r))
  end.

(** Sum that skips [NaN]; the sum of no value is 0 ([min_count=0]). *)
Definition nansum (l : list cell) : Z :=
  fold_right (fun c acc => match c with Some v => v + acc | None => acc end) 0 l.

(** Sum of every cell of a frame. *)
Definition sum_cells (t : DataFrame) : Z :=
  fold_right (fun r acc => nansum (snd r) + acc) 0 (rows t).

Section SortUnique.
Context {A : Type} (cmp : A -> A -> comparison).

Fixpoint insert_unique (x : A) (l : list A) : list A :=
  match l with
  | [] => [x]
  | h :: t =>
      match cmp x h with
      | Lt => x :: l
      | Eq => l
      | Gt => h :: insert_unique x t
      end
  end.

(** Sorted list of the distinct elements of [l] (the group keys of a
    [groupby(sort=True)]). *)
Definition sort_unique (l : list A) : list A :=
  fold_right insert_unique [] l.
End SortUnique.

(** The long frame handed to [pivot_table]: columns [unique_id], [date]
    and [y]. *)
Module Long.
Record t : Type := mk { unique_id : string; date : Z; y : Z }.
End Long.

(** [aggfunc="sum"] over one group of an index of plain strings: a
    group with no row is not in the long table and unstacks to [NaN]. *)
Definition agg_sum (l : list Z) : cell :=
  match l with
  | [] => None
  | _ => Some (fold_right Z.add 0 l)
  end.

(** [aggfunc="sum"] over one group of a categorical index
    ([observed=False]): every category has its group, and the sum of no
    row is 0. *)
Definition agg_sum_all (l : list Z) : cell := Some (fold_right Z.add 0 l).

Definition group (data : list Long.t) (i : string) (d : Z) : list Long.t :=
  filter (fun r => (Long.unique_id r =? i)%string && (Long.date r =? d)) data.

(** [pd.pivot_table(data, index="unique_id", columns="date", values="y",
    aggfunc="sum")].  [categories] is the dtype of [unique_id]: [Some cats]
    for a categorical column with categories [cats], which all get a row,
    and [None] for plain strings, where the rows are the values present. *)
Definition pivot_table (categories : option (list string)) (data : list Long.t)
  : DataFrame :=
  let cols := sort_unique Z.compare (map Long.date data) in
  match categories with
  | Some cats =>
      {| columns := cols;
         rows := map (fun i =>
                        (i, map (fun d => agg_sum_all (map Long.y (group data i d)))
                                cols))
                     cats |}
  | None =>
      let idx := sort_unique String_as_OT.compare (map Long.unique_id data) in
      {| columns := cols;
         rows := map (fun i =>
                        (i, map (fun d => agg_sum (map Long.y (group data i d)))
                                cols))
                     idx |}
  end.

(** [date_range(start=t, end=stop, freq=o)] for an anchor [t]. *)
Fixpoint date_range (o : offset) (fuel : nat) (t stop : Z) : list Z :=
  match fuel with
  | O => []
  | S fuel' =>
      if t <=? stop
      then t :: date_range o fuel' (rollforward o (t + 1)) stop
      else []
  end.

Definition list_min (d : Z) (l : list Z) : Z := fold_right Z.min d l.
Definition list_max (d : Z) (l : list Z) : Z := fold_right Z.max d l.

(** The cells of a row whose (daily) column falls in the bin labelled
    [lbl]: bins are closed and labelled on the right, so a day belongs to
    the bin of the first anchor on or after it. *)
Definition bin_values (o : offset) (lbl : Z) (cols : list Z) (r : list cell)
  : list cell :=
  map snd (filter (fun p => rollforward o (fst p) =? lbl) (combine cols r)).

(** The labels of the resampled axis: every anchor from the bin of the
    earliest day to the bin of the latest day. *)
Definition bin_labels (o : offset) (cols : list Z) : list Z :=
  match cols with
  | [] => []
  | c0 :: cs =>
      let first := rollforward o (list_min c0 cs) in
      let last := rollforward o (list_max c0 cs) in
      date_range o (Z.to_nat (last - first + 1)) first last
  end.

(** [t.resample(o, axis=1).sum()]: one column per label, and every cell
    is a number (an empty bin sums to 0). *)
Definition resample_sum (o : offset) (t : DataFrame) : DataFrame :=
  let labels := bin_labels o (columns t) in
  {| columns := labels;
     rows := map (fun r =>
                    (fst r,
                     map (fun lbl =>
                            Some (nansum (bin_values o lbl (columns t) (snd r))))
                         labels))
                 (rows t) |}.

(** Outer join of two indexes, [sort=False]: the labels of [a], then the
    labels of [b] not yet seen. *)
Definition union_index (a b : list string) : list string :=
  a ++ filter (fun i => negb (existsb (String.eqb i) a)) b.

(** [t.reindex(idx)] for one label: a label absent from [t] gets a row of
    [NaN]. *)
Definition reindex_row (t : DataFrame) (i : string) : list cell :=
  match loc t i with
  | Some r => r
  | None => repeat None (List.length (columns t))
  end.

(** [pd.concat([a, b], axis=1)]. *)
Definition concat_axis1 (a b : DataFrame) : DataFrame :=
  {| columns := columns a ++ columns b;
     rows := map (fun i => (i, reindex_row a i ++ reindex_row b i))
                 (union_index (index a) (index b)) |}.

(* ================================================================= *)
(** ** Exceptions and the world of [to_csv] *)

Inductive exn : Type :=
| ValueError (msg : string)
| OSError
| TypeError
| AttributeError.

Record World : Type := mkWorld
  { disk : list (string * DataFrame);  (* every write done, latest first:
                                          the file at a path holds the
                                          latest frame written there *)
    faults : list bool }.              (* outcome of the next write attempts:
                                          [true] is a failing write *)

(** Computations that may raise and that act on the world. *)
Definition M (A : Type) : Type := World -> (exn + A) * World.

Definition ret {A} (a : A) : M A := fun w => (inr a, w).
Definition raise {A} (e : exn) : M A := fun w => (inl e, w).
Definition bind {A B} (c : M A) (k : A -> M B) : M B :=
  fun w => match c w with
           | (inl e, w') => (inl e, w')
           | (inr a, w') => k a w'
           end.

Declare Scope m_scope.
Delimit Scope m_scope with m.
Notation "x <- c ;; k" := (bind c (fun x => k))
  (at level 100, c at next level, right associativity) : m_scope.
Notation "c ;;; k" := (bind c (fun _ => k))
  (at level 100, right associativity) : m_scope.

(** [open(path).read()], as a frame. *)
Fixpoint read_file (path : string) (d : list (string * DataFrame))
  : option DataFrame :=
  match d with
  | [] => None
  | (p, t) :: d' => if (path =? p)%string then Some t else read_file path d'
  end.

(** [t.to_csv(path)]: overwrite the file at [path], or raise. *)
Definition to_csv (t : DataFrame) (path : string) : M unit :=
  fun w =>
    match faults w with
    | true :: fs => (inl OSError, {| disk := disk w; faults := fs |})
    | false :: fs => (inr tt, {| disk := (path, t) :: disk w; faults := fs |})
    | [] => (inr tt, {| disk := (path, t) :: disk w; faults := [] |})
    end.

(** [t.resample(rule, axis=1).sum()] with the rule given as a string.
    A frame without columns (the pivot of no row) has no datetime axis
    to resample: the call raises. *)
Definition resample (rule : string) (t : DataFrame) : M DataFrame :=
  match to_offset rule with
  | Some o =>
      match columns t with
      | [] => raise AttributeError
      | _ => ret (resample_sum o t)
      end
  | None => raise (ValueError "Invalid frequency")
  end.

(* ================================================================= *)
(** ** [read_case_1] *)

(** A row of [df] once its columns are named (line 96). *)
Record Row : Type := mkRow
  { DC : string; Shop : string; Item : string; date : Z; y : Z }.

(** [.drop(["DC", "Shop"], axis=1).rename(columns={"Item": "unique_id"})]. *)
Definition drop_rename (r : Row) : Long.t :=
  {| Long.unique_id := Item r; Long.date := date r; Long.y := y r |}.

(** Lines 71-93: the file is read in chunks of [chunksize] rows, each
    with [Item] as a [category] whose categories are the items of that
    chunk, sorted; [pd.concat] keeps the column categorical when all the
    chunks have the same categories and makes it a column of plain
    strings otherwise. *)
Definition chunksize : Z := 10 ^ 6.

(** [l[:n]] and [l[n:]]. *)
Fixpoint take {A} (n : Z) (l : list A) : list A :=
  match l with
  | [] => []
  | x :: l' => if 0 <? n then x :: take (n - 1) l' else []
  end.

Fixpoint drop {A} (n : Z) (l : list A) : list A :=
  match l with
  | [] => []
  | x :: l' => if 0 <? n then drop (n - 1) l' else l
  end.

(** The chunks the iterator [tp] yields: [n] rows each, the last one
    maybe fewer. *)
Fixpoint chunks_of (fuel : nat) (n : Z) (l : list Row) : list (list Row) :=
  match fuel with
  | O => []
  | S fuel' =>
      match l with
      | [] => []
      | _ => take n l :: chunks_of fuel' n (drop n l)
      end
  end.

Definition file_chunks (df : list Row) : list (list Row) :=
  chunks_of (List.length df) chunksize df.

(** The categories of [Item] in one chunk: its values, sorted. *)
Definition categories_of (chunk : list Row) : list string :=
  sort_unique String_as_OT.compare (map Item chunk).

(** The dtype of [df["Item"]]: [Some cats] is a categorical column with
    categories [cats], [None] a column of plain strings. *)
Definition Item_categories (df : list Row) : option (list string) :=
  match map categories_of (file_chunks df) with
  | [] => None
  | cats :: others =>
      if forallb (fun c => if list_eq_dec string_dec cats c then true else false)
                 others
      then Some cats
      else None
  end.

(** [df["date"].min()] and [df["date"].max()]; [None] is [NaT]. *)
Definition date_min (df : list Row) : option Z :=
  match df with
  | [] => None
  | r :: df' => Some (list_min (date r) (map date df'))
  end.

Definition date_max (df : list Row) : option Z :=
  match df with
  | [] => None
  | r :: df' => Some (list_max (date r) (map date df'))
  end.

(** [df[(df["date"] < temp_date) & (df["date"] > start_date)]]. *)
Definition between (df : list Row) (start_date temp_date : Z) : list Row :=
  filter (fun r => (date r <? temp_date) && (date r >? start_date)) df.

Definition unsupported : string :=
  "Currently supporting only Weekly(W) and Monthly(M) frequencies for case 1".

Open Scope m_scope.

(** Lines 106-114. *)
Definition chunk_size_of (frequency : string) : M Z :=
  if (frequency =? "W")%string then ret 14
  else if (frequency =? "M")%string then ret 59
  else raise (ValueError unsupported).

(** Lines 145-155 (and 126-135): pivot and resample one chunk, whose
    [Item] column has the dtype it has in [df]. *)
Definition pivot_resample (frequency : string) (categories : option (list string))
    (chunk : list Row) : M DataFrame :=
  resample frequency (pivot_table categories (map drop_rename chunk)).

(** The [while] loop of lines 137-162; [dmax] is [df["date"].max()].
    Each turn moves [start_date] forward by [chunk_period - 1] days, so
    [fuel] bounds the turns. *)
Fixpoint while_loop (fuel : nat) (df : list Row)
    (write_filepath frequency : string) (temporary_save : bool)
    (chunk_period dmax : Z) (start_date : Z) (out_df : DataFrame)
  : M (Z * DataFrame) :=
  match fuel with
  | O => ret (start_date, out_df)
  | S fuel' =>
      if start_date + chunk_period <? dmax then
        let temp_date := start_date + chunk_period in
        let temp_df := between df start_date temp_date in
        let start_date := temp_date - 1 in
        temp_df <- pivot_resample frequency (Item_categories df) temp_df ;;
        let out_df := concat_axis1 out_df temp_df in
        (if temporary_save then to_csv out_df write_filepath else ret tt) ;;;
        while_loop fuel' df write_filepath frequency temporary_save
                   chunk_period dmax start_date out_df
      else ret (start_date, out_df)
  end.

(** Lines 106-165, from the loaded and renamed [df]. *)
Definition read_case_1 (df : list Row) (write_filepath frequency : string)
    (temporary_save : bool) : M DataFrame :=
  chunk_size <- chunk_size_of frequency ;;
  match date_min df, date_max df with
  | Some start_date, Some dmax =>
      let chunk_period := chunk_size in
      let temp_date := start_date + chunk_period in
      let out_df := between df start_date temp_date in
      let start_date := temp_date - 1 in
      out_df <- pivot_resample frequency (Item_categories df) out_df ;;
      st <- while_loop (Z.to_nat (dmax - start_date)) df write_filepath
              frequency temporary_save chunk_period dmax start_date out_df ;;
      ret (snd st)
  | _, _ =>
      (* no row: [start_date] is [NaT], and line 118 cannot add a
         [timedelta] to it *)
      raise TypeError
  end.

Close Scope m_scope.

(* ================================================================= *)
(** ** Vocabulary of the statements *)

(** The offset behind each supported frequency string, and the chunk
    size the code attaches to it. *)
Definition alias (o : offset) : string :=
  match o with Week_SUN => "W" | MonthEnd => "M" end.

Definition chunk_days (o : offset) : Z :=
  match o with Week_SUN => 14 | MonthEnd => 59 end.

(** A window is the pair of bounds of one filter; both are excluded. *)
Definition in_window (w : Z * Z) (d : Z) : bool :=
  (d <? snd w) && (d >? fst w).

(** The windows filtered on by the turns of the loop, in order. *)
Fixpoint loop_windows (fuel : nat) (chunk_period dmax start_date : Z)
  : list (Z * Z) :=
  match fuel with
  | O => []
  | S fuel' =>
      if start_date + chunk_period <? dmax
      then (start_date, start_date + chunk_period)
             :: loop_windows fuel' chunk_period dmax
                  (start_date + chunk_period - 1)
      else []
  end.

(** The value of [start_date] when the loop stops. *)
Fixpoint loop_start (fuel : nat) (chunk_period dmax start_date : Z) : Z :=
  match fuel with
  | O => start_date
  | S fuel' =>
      if start_date + chunk_period <? dmax
      then loop_start fuel' chunk_period dmax (start_date + chunk_period - 1)
      else start_date
  end.

(** The fuel [read_case_1] gives to its loop. *)
Definition loop_fuel (o : offset) (df : list Row) : nat :=
  match date_min df, date_max df with
  | Some m, Some dmax => Z.to_nat (dmax - (m + chunk_days o - 1))
  | _, _ => O
  end.

(** The windows filtered on up to the [n]-th turn of the loop: the first
    chunk, then the turns. *)
Definition windows_upto (n : nat) (o : offset) (df : list Row) : list (Z * Z) :=
  match date_min df, date_max df with
  | Some m, Some dmax =>
      let c := chunk_days o in
      (m, m + c) :: loop_windows n c dmax (m + c - 1)
  | _, _ => []
  end.

(** Every window [read_case_1] filters on. *)
Definition windows (o : offset) (df : list Row) : list (Z * Z) :=
  windows_upto (loop_fuel o df) o df.

(** Number of turns of the loop. *)
Definition turns (o : offset) (df : list Row) : nat :=
  Nat.pred (List.length (windows o df)).

(** The matrix of one window: its rows of [df], pivoted and resampled. *)
Definition window_matrix (o : offset) (df : list Row) (w : Z * Z) : DataFrame :=
  resample_sum o (pivot_table (Item_categories df)
                    (map drop_rename (between df (fst w) (snd w)))).

(** Every window of the list holds a row of [df]. *)
Definition chunks_nonempty (ws : list (Z * Z)) (df : list Row) : bool :=
  forallb (fun w => match between df (fst w) (snd w) with
                    | [] => false
                    | _ => true
                    end) ws.

(** Successive [concat]s of a list of matrices. *)
Definition merge_all (ms : list DataFrame) : DataFrame :=
  match ms with
  | [] => empty_frame
  | m :: ms' => fold_left concat_axis1 ms' m
  end.

(** The value of [out_df] once the loop has made at most [n] turns:
    [read_case_1] with its loop cut after [n] turns. *)
Definition running_matrix (n : nat) (df : list Row)
    (write_filepath frequency : string) (temporary_save : bool) : M DataFrame :=
  (chunk_size <- chunk_size_of frequency ;;
   match date_min df, date_max df with
   | Some start_date, Some dmax =>
       let temp_date := start_date + chunk_size in
       out_df <- pivot_resample frequency (Item_categories df)
                   (between df start_date temp_date) ;;
       st <- while_loop n df write_filepath frequency temporary_save
               chunk_size dmax (temp_date - 1) out_df ;;
       ret (snd st)
   | _, _ => raise TypeError
   end)%m.


(** Inputs of the examples: ISO dates, rows without [DC] and [Shop], and
    a world with an empty disk where every write succeeds. *)
Definition ISO (yr m d : Z) : Z := Calendar.days_from_civil yr m d.
Definition row (i : string) (d v : Z) : Row :=
  {| DC := ""; Shop := ""; Item := i; date := d; y := v |}.
Definition quiet : World := {| disk := []; faults := [] |}.

(** The rows of [df] that are not dated on day [m]. *)
Definition off_day (m : Z) (df : list Row) : list Row :=
  filter (fun r => negb (date r =? m)) df.

Definition sumZ (l : list Z) : Z := fold_right Z.add 0 l.

Definition sum_y (l : list Row) : Z := sumZ (map y l).

Definition of_series (i : string) (l : list Row) : list Row :=
  filter (fun r => (Item r =? i)%string) l.

Definition in_period (o : offset) (lbl : Z) (l : list Row) : list Row :=
  filter (fun r => rollforward o (date r) =? lbl) l.

Definition has_series (i : string) (l : list Row) : bool :=
  existsb (fun r => (Item r =? i)%string) l.

(** Whether series [i] has a row in the matrix of a chunk of [df]: as a
    category of [Item] it always has, as a plain string it has when the
    chunk holds a row of it. *)
Definition has_row (df : list Row) (i : string) (chunk : list Row) : bool :=
  match Item_categories df with
  | Some cats => existsb (String.eqb i) cats
  | None => has_series i chunk
  end.

(** The row a window contributes to series [i]: sums per period when the
    series has a row in the matrix of the window, [NaN] throughout
    otherwise. *)
Definition window_row (o : offset) (df : list Row) (i : string) (w : Z * Z)
  : list cell :=
  let chunk := between df (fst w) (snd w) in
  let labels := columns (window_matrix o df w) in
  if has_row df i chunk
  then map (fun lbl => Some (sum_y (in_period o lbl (of_series i chunk)))) labels
  else repeat None (List.length labels).

(** The quantities of [df] are added without rounding: as [float32]
    integers, whatever the order and the grouping of the additions. *)
Definition exact32 (df : list Row) : Prop :=
  sumZ (map (fun r => Z.abs (y r)) df) <= 2 ^ 24.

(** The rows [read_case_1] reads: those dated after the earliest day and
    no later than the last value of [start_date]. *)
Definition rows_read (o : offset) (df : list Row) : list Row :=
  match date_min df, date_max df with
  | Some m, Some dmax =>
      let last := loop_start (loop_fuel o df) (chunk_days o) dmax
                    (m + chunk_days o - 1) in
      filter (fun r => (m <? date r) && (date r <=? last)) df
  | _, _ => []
  end.

(** A frame is a table: each row has one cell per column. *)
Definition rectangular (t : DataFrame) : Prop :=
  Forall (fun r => List.length (snd r) = List.length (columns t)) (rows t).

(* ================================================================= *)
(** ** The other readers: strings *)

Module Str.

(** [s.split(sep)] for a separator of one character: the pieces of [s]
    between the occurrences of [sep]; there is always at least one
    piece. *)
Fixpoint split (sep : ascii) (s : string) : list string :=
  match s with
  | EmptyString => [EmptyString]
  | String ch s' =>
      if Ascii.eqb ch sep then EmptyString :: split sep s'
      else match split sep s' with
           | [] => [String ch EmptyString]
           | piece :: pieces => String ch piece :: pieces
           end
  end.

(** [sep.join(pieces)]. *)
Fixpoint join (sep : string) (pieces : list string) : string :=
  match pieces with
  | [] => EmptyString
  | piece :: pieces' =>
      match pieces' with
      | [] => piece
      | _ => piece ++ sep ++ join sep pieces'
      end
  end.

(** [ch in s]. *)
Fixpoint contains (ch : ascii) (s : string) : bool :=
  match s with
  | EmptyString => false
  | String ch' s' => Ascii.eqb ch' ch || contains ch s'
  end.

End Str.

(* ================================================================= *)
(** ** [read_case_0] *)

(** A row of the sales file: the identifier, the five hierarchy columns
    and one cell per day column. *)
Module M5.
Record row : Type := mk
  { id : string; item_id : string; dept_id : string; cat_id : string;
    store_id : string; state_id : string; days : list cell }.

(** The file as loaded: the names of its day columns and its rows. *)
Record frame : Type := mkFrame
  { day_columns : list string; body : list row }.
End M5.

(** Line 35: ["_".join(d.split("_")[:-1])], the identifier without its
    last underscore-separated piece. *)
Definition strip_last (d : string) : string :=
  Str.join "_" (removelast (Str.split "_" d)).

(** [cell == 0]; [NaN == 0] is false. *)
Definition is_zero (c : cell) : bool :=
  match c with Some v => v =? 0 | None => false end.

(** Lines 25-55, from the two loaded files; the calendar is its columns
    [d] and [date], the dates already parsed.  Assigning [df.columns]
    raises when the number of labels is not the number of columns. *)
Definition read_case_0 (df : M5.frame) (calendar : list (string * Z))
  : exn + DataFrame :=
  (* drop the hierarchy, strip the id and make it the index *)
  let indexed := map (fun r => (strip_last (M5.id r), M5.days r)) (M5.body df) in
  let total_days := List.length (M5.day_columns df) in
  let dates := map snd (firstn total_days calendar) in
  if (List.length dates =? total_days)%nat then
    inr {| columns := dates;
           rows := filter (fun r => negb (forallb is_zero (snd r))) indexed |}
  else inl (ValueError "Length mismatch").

(* ================================================================= *)
(** ** [read_case_3] *)

(** A row of the transactions file; [None] is a missing value ([NaN],
    [NaT]).  [Inuit] is an integer, held as a [float64] from line 248
    on. *)
Module Tx.
Record row : Type := mk
  { Status : option Z; Exclincl : option Z; Trans : string;
    Groep : option string; Resource : option string; Datum : option Z;
    Inuit : cell }.
End Tx.

(** The group keys of line 251: [Groep], [Resource] and [Datum], ordered
    one after the other. *)
Module Key3.
Definition t : Type := (string * string * Z)%type.

(** The key of a row.  A row with a missing [Groep], [Resource] or
    [Datum] has none: [groupby] leaves it out ([dropna=True]). *)
Definition of_row (r : Tx.row) : option t :=
  match Tx.Groep r, Tx.Resource r, Tx.Datum r with
  | Some g, Some s, Some d => Some (g, s, d)
  | _, _, _ => None
  end.

Definition compare (a b : t) : comparison :=
  match String_as_OT.compare (fst (fst a)) (fst (fst b)) with
  | Eq =>
      match String_as_OT.compare (snd (fst a)) (snd (fst b)) with
      | Eq => Z.compare (snd a) (snd b)
      | c => c
      end
  | c => c
  end.

Definition lt (a b : t) : Prop := compare a b = Lt.

Definition eqb (a b : t) : bool :=
  (fst (fst a) =? fst (fst b))%string && (snd (fst a) =? snd (fst b))%string
  && (snd a =? snd b).

(** The rows of the group of key [k]. *)
Definition in_group (k : t) (r : Tx.row) : bool :=
  match of_row r with
  | Some k' => eqb k' k
  | None => false
  end.
End Key3.

(** Line 240: the rows dropped for their status. *)
Definition bad_status (r : Tx.row) : bool :=
  match Tx.Status r with Some v => v =? 4 | None => true end
  || negb (match Tx.Exclincl r with Some v => v =? 1 | None => false end).

(** Lines 240-247: the rows that are kept, the sales with a good status. *)
Definition sales_rows (df : list Tx.row) : list Tx.row :=
  filter (fun r => (Tx.Trans r =? "VK")%string)
         (filter (fun r => negb (bad_status r)) df).

(** Lines 258-260: [str(shop) + "-" + str(group)]. *)
Definition shop_group (shop group : string) : string :=
  (shop ++ "-" ++ group)%string.

(** The keys borne by the rows of [df]. *)
Definition group_keys (df : list Tx.row) : list Key3.t :=
  flat_map (fun r => match Key3.of_row r with
                     | Some k => [k]
                     | None => []
                     end) df.

(** Lines 237-269, from the loaded file: one row per group, in the order
    of the keys, with the summed quantity made positive. *)
Definition read_case_3 (df : list Tx.row) : list Long.t :=
  let df := sales_rows df in
  map (fun k : Key3.t =>
         let g := filter (Key3.in_group k) df in
         {| Long.unique_id := shop_group (snd (fst k)) (fst (fst k));
            Long.date := snd k;
            Long.y := nansum (map Tx.Inuit g) * -1 |})
      (sort_unique Key3.compare (group_keys df)).

(** The quantities of [df] are added without rounding, as [float64]
    integers, whatever the order of the additions. *)
Definition exact64 (df : list Tx.row) : Prop :=
  sumZ (map (fun r => match Tx.Inuit r with
                      | Some v => Z.abs v
                      | None => 0
                      end) df) <= 2 ^ 53.

(* ================================================================= *)
(** ** Facts about the calendar and the offsets *)

Module CalendarFacts.
Import Calendar.

Lemma week_end_closed t : week_end t = 7 * ((t + 3) / 7) + 3.
Proof. unfold week_end, weekday. Z.div_mod_to_equations. lia. Qed.

Lemma week_end_ge t : t <= week_end t.
Proof. unfold week_end, weekday. Z.div_mod_to_equations. lia. Qed.

Lemma week_end_lt t : week_end t < t + 7.
Proof. unfold week_end, weekday. Z.div_mod_to_equations. lia. Qed.

Lemma week_end_idem t : week_end (week_end t) = week_end t.
Proof. rewrite !week_end_closed. Z.div_mod_to_equations. lia. Qed.

Lemma week_end_mono t u : t <= u -> week_end t <= week_end u.
Proof. intros H. rewrite !week_end_closed. Z.div_mod_to_equations. lia. Qed.

(** *** Searching a sorted table *)

Lemma sortedb_sound l : sortedb l = true -> StronglySorted Z.lt l.
Proof.
  intros H. apply Sorted_StronglySorted.
  - intros a b c; lia.
  - induction l as [|x [|x' l'] IH]; auto using Sorted, HdRel.
    simpl in H. apply andb_true_iff in H as [Hx Hl].
    constructor; [auto|]. constructor. lia.
Qed.

Lemma find_ge_ge r l : r <= find_ge r l.
Proof.
  induction l as [|x l IH]; simpl; [lia|].
  destruct (r <=? x) eqn:E; [lia | exact IH].
Qed.

Lemma find_ge_in r l :
  (exists x, In x l /\ r <= x) -> In (find_ge r l) l.
Proof.
  induction l as [|x l IH]; intros (z & Hin & Hz); [destruct Hin|].
  simpl. destruct (r <=? x) eqn:E; [now left|].
  right. apply IH. destruct Hin as [->|Hin]; [lia|eauto].
Qed.

Lemma find_ge_fix x l :
  StronglySorted Z.lt l -> In x l -> find_ge x l = x.
Proof.
  induction 1 as [|a l Hs IH Ha]; intros Hin; [destruct Hin|].
  simpl. destruct Hin as [->|Hin].
  - now rewrite Z.leb_refl.
  - rewrite Forall_forall in Ha. specialize (Ha _ Hin).
    destruct (x <=? a) eqn:E; [lia | auto].
Qed.

Lemma find_ge_mono r1 r2 l :
  StronglySorted Z.lt l -> r1 <= r2 -> find_ge r1 l <= find_ge r2 l.
Proof.
  induction 1 as [|a l Hs IH Ha]; intros Hr; simpl; [lia|].
  destruct (r1 <=? a) eqn:E1, (r2 <=? a) eqn:E2; try lia; auto.
  pose proof (find_ge_ge r2 l). lia.
Qed.

(** *** The table of month ends *)

Lemma cycle_sorted : StronglySorted Z.lt cycle_month_ends.
Proof. apply sortedb_sound. vm_compute. reflexivity. Qed.

Lemma cycle_bounded x : In x cycle_month_ends -> 0 <= x < cycle_days.
Proof.
  assert (H : forallb in_cycle cycle_month_ends = true)
    by (vm_compute; reflexivity).
  rewrite forallb_forall in H. intros Hin. apply H in Hin.
  unfold in_cycle in Hin. lia.
Qed.

Lemma cycle_last : In (cycle_days - 1) cycle_month_ends.
Proof.
  assert (H : existsb (Z.eqb (cycle_days - 1)) cycle_month_ends = true)
    by (vm_compute; reflexivity).
  apply existsb_exists in H as (x & Hin & Hx).
  apply Z.eqb_eq in Hx. now subst.
Qed.

Lemma find_cycle r :
  0 <= r < cycle_days ->
  In (find_ge r cycle_month_ends) cycle_month_ends.
Proof.
  intros Hr. apply find_ge_in. exists (cycle_days - 1).
  split; [apply cycle_last | lia].
Qed.

Lemma month_end_ge t : t <= month_end t.
Proof.
  unfold month_end.
  pose proof (find_ge_ge ((t - cycle_start) mod cycle_days) cycle_month_ends).
  pose proof (Z.div_mod (t - cycle_start) cycle_days).
  unfold cycle_days in *. lia.
Qed.

Lemma month_end_split t :
  exists q x, In x cycle_month_ends /\ 0 <= x < cycle_days
              /\ q = (t - cycle_start) / cycle_days
              /\ x = find_ge ((t - cycle_start) mod cycle_days) cycle_month_ends
              /\ month_end t = cycle_start + cycle_days * q + x.
Proof.
  assert (Hr : 0 <= (t - cycle_start) mod cycle_days < cycle_days)
    by (apply Z.mod_pos_bound; reflexivity).
  pose proof (find_cycle _ Hr) as Hin.
  eexists _, _. repeat split; eauto; apply (cycle_bounded _ Hin).
Qed.

Lemma month_end_idem t : month_end (month_end t) = month_end t.
Proof.
  destruct (month_end_split t) as (q & x & Hin & Hx & _ & _ & ->).
  unfold month_end.
  replace (cycle_start + cycle_days * q + x - cycle_start)
    with (x + q * cycle_days) by lia.
  rewrite Z.div_add, Z.mod_add by (unfold cycle_days; lia).
  rewrite Z.div_small, Z.mod_small by exact Hx.
  rewrite (find_ge_fix _ _ cycle_sorted Hin). lia.
Qed.

Lemma month_end_mono t u : t <= u -> month_end t <= month_end u.
Proof.
  intros Htu.
  destruct (month_end_split t) as (q & x & _ & Hx & Hq & Hxe & ->).
  destruct (month_end_split u) as (q' & x' & _ & Hx' & Hq' & Hxe' & ->).
  assert (Hqq : q <= q')
    by (subst q q'; apply Z.div_le_mono; [reflexivity | lia]).
  destruct (Z.eq_dec q q') as [Heq|Hne].
  - assert ((t - cycle_start) mod cycle_days
            <= (u - cycle_start) mod cycle_days).
    { pose proof (Z.div_mod (t - cycle_start) cycle_days).
      pose proof (Z.div_mod (u - cycle_start) cycle_days).
      unfold cycle_days in *. lia. }
    pose proof (find_ge_mono _ _ _ cycle_sorted H).
    unfold cycle_days in *. lia.
  - unfold cycle_days in *. nia.
Qed.

(** The table agrees with [days_from_civil]: its [k]-th entry is the day
    before the first day of month [k + 1] of the cycle. *)
Lemma cycle_agrees_with_civil :
  cycle_month_ends
  = map (fun k => days_from_civil (2000 + (k + 1) / 12) ((k + 1) mod 12 + 1) 1
                  - 1 - cycle_start)
        (map Z.of_nat (seq 0 4800)).
Proof. vm_compute. reflexivity. Qed.

(** 2020-01-05 was a Sunday, and 2020-01-01 a Wednesday. *)
Lemma weekday_examples :
  weekday (days_from_civil 2020 1 5) = 6
  /\ weekday (days_from_civil 2020 1 1) = 2
  /\ week_end (days_from_civil 2020 1 1) = days_from_civil 2020 1 5
  /\ month_end (days_from_civil 2020 2 3) = days_from_civil 2020 2 29
  /\ month_end (days_from_civil 1900 2 3) = days_from_civil 1900 2 28.
Proof. repeat split; vm_compute; reflexivity. Qed.

End CalendarFacts.

Section Offsets.
Variable o : offset.

Lemma rollforward_ge t : t <= rollforward o t.
Proof.
  destruct o; [apply CalendarFacts.week_end_ge | apply CalendarFacts.month_end_ge].
Qed.

Lemma rollforward_idem t : rollforward o (rollforward o t) = rollforward o t.
Proof.
  destruct o;
    [apply CalendarFacts.week_end_idem | apply CalendarFacts.month_end_idem].
Qed.

Lemma rollforward_mono t u : t <= u -> rollforward o t <= rollforward o u.
Proof.
  destruct o;
    [apply CalendarFacts.week_end_mono | apply CalendarFacts.month_end_mono].
Qed.
End Offsets.

(* ================================================================= *)
(** ** Facts about sorting, ranges and labels *)

Section SortUniqueFacts.
Context {A : Type} (cmp : A -> A -> comparison) (lt : A -> A -> Prop).
Hypothesis cmp_spec : forall x x', CompSpec eq lt x x' (cmp x x').
Hypothesis lt_strict : StrictOrder lt.

Lemma insert_unique_in x l z :
  In z (insert_unique cmp x l) <-> z = x \/ In z l.
Proof.
  induction l as [|h l IH]; simpl; [intuition|].
  destruct (cmp_spec x h) as [->|Hlt|Hgt]; simpl; rewrite ?IH; intuition.
Qed.

Lemma insert_unique_sorted x l :
  StronglySorted lt l -> StronglySorted lt (insert_unique cmp x l).
Proof.
  induction 1 as [|h l Hs IH Hh]; simpl; [repeat constructor|].
  destruct (cmp_spec x h) as [->|Hlt|Hgt].
  - now constructor.
  - constructor; [now constructor|]. constructor; [exact Hlt|].
    eapply Forall_impl; [|exact Hh]. intros a Ha. now transitivity h.
  - constructor; [exact IH|]. apply Forall_forall. intros z Hz.
    apply insert_unique_in in Hz as [->|Hz]; [exact Hgt|].
    rewrite Forall_forall in Hh. auto.
Qed.

Lemma sort_unique_in l z : In z (sort_unique cmp l) <-> In z l.
Proof.
  induction l as [|x l IH]; simpl; [tauto|].
  rewrite insert_unique_in, IH. intuition.
Qed.

Lemma sort_unique_sorted l : StronglySorted lt (sort_unique cmp l).
Proof.
  induction l as [|x l IH]; simpl; [constructor|].
  now apply insert_unique_sorted.
Qed.

Lemma sorted_NoDup l : StronglySorted lt l -> NoDup l.
Proof.
  induction 1 as [|h l Hs IH Hh]; constructor; [|exact IH].
  intros Hin. rewrite Forall_forall in Hh. apply Hh in Hin.
  now apply (irreflexivity (R := lt)) in Hin.
Qed.

Lemma sort_unique_NoDup l : NoDup (sort_unique cmp l).
Proof. apply sorted_NoDup, sort_unique_sorted. Qed.
End SortUniqueFacts.

Lemma list_min_spec d l :
  (forall x, In x (d :: l) -> list_min d l <= x) /\ In (list_min d l) (d :: l).
Proof.
  unfold list_min. induction l as [|a l [IH1 IH2]]; simpl.
  - split; [intros x [->|[]]; lia | now left].
  - split.
    + intros x [->|[->|Hx]].
      * specialize (IH1 x (or_introl eq_refl)). lia.
      * lia.
      * specialize (IH1 x (or_intror Hx)). lia.
    + destruct (Z.min_spec a (fold_right Z.min d l)) as [[_ ->]|[_ ->]];
        [right; now left|].
      destruct IH2 as [H|H]; [left; exact H | right; right; exact H].
Qed.

Lemma list_max_spec d l :
  (forall x, In x (d :: l) -> x <= list_max d l) /\ In (list_max d l) (d :: l).
Proof.
  unfold list_max. induction l as [|a l [IH1 IH2]]; simpl.
  - split; [intros x [->|[]]; lia | now left].
  - split.
    + intros x [->|[->|Hx]].
      * specialize (IH1 x (or_introl eq_refl)). lia.
      * lia.
      * specialize (IH1 x (or_intror Hx)). lia.
    + destruct (Z.max_spec a (fold_right Z.max d l)) as [[_ ->]|[_ ->]];
        [|right; now left].
      destruct IH2 as [H|H]; [left; exact H | right; right; exact H].
Qed.

Section RangeFacts.
Variable o : offset.

Lemma date_range_bounds n t stop x :
  In x (date_range o n t stop) -> t <= x <= stop.
Proof.
  revert t. induction n as [|n IH]; intros t; simpl; [tauto|].
  destruct (t <=? stop) eqn:E; [|intros []].
  intros [<-|Hx]; [lia|].
  apply IH in Hx. pose proof (rollforward_ge o (t + 1)). lia.
Qed.

Lemma date_range_sorted n t stop :
  StronglySorted Z.lt (date_range o n t stop).
Proof.
  revert t. induction n as [|n IH]; intros t; simpl; [constructor|].
  destruct (t <=? stop); constructor; [apply IH|].
  apply Forall_forall. intros x Hx. apply date_range_bounds in Hx.
  pose proof (rollforward_ge o (t + 1)). lia.
Qed.


Lemma bin_labels_sorted cols : StronglySorted Z.lt (bin_labels o cols).
Proof. destruct cols; [constructor | apply date_range_sorted]. Qed.



(** A label stems from the days of the frame: it lies between the
    bins of any bounds of these days. *)
Lemma bin_labels_between cols lo hi lbl :
  (forall d, In d cols -> lo <= d <= hi) ->
  In lbl (bin_labels o cols) ->
  rollforward o lo <= lbl <= rollforward o hi.
Proof.
  destruct cols as [|c0 cs]; [intros _ []|]. intros Hb Hl. simpl in Hl.
  apply date_range_bounds in Hl.
  destruct (list_min_spec c0 cs) as [_ Hmin].
  destruct (list_max_spec c0 cs) as [_ Hmax].
  pose proof (rollforward_mono o lo _ (proj1 (Hb _ Hmin))).
  pose proof (rollforward_mono o _ hi (proj2 (Hb _ Hmax))).
  lia.
Qed.
End RangeFacts.

(* ================================================================= *)
(** ** Facts about frames *)

Lemma existsb_eqb_in i l : existsb (String.eqb i) l = true <-> In i l.
Proof.
  rewrite existsb_exists. split.
  - intros (x & Hx & E). apply String.eqb_eq in E. now subst.
  - intros H. exists i. split; [exact H | apply String.eqb_refl].
Qed.

Lemma bool_eq_iff (a b : bool) : (a = true <-> b = true) -> a = b.
Proof. destruct a, b; intuition congruence. Qed.

Lemma lookup_row_map (f : string -> list cell) i l :
  lookup_row i (map (fun j => (j, f j)) l)
  = if existsb (String.eqb i) l then Some (f i) else None.
Proof.
  induction l as [|a l IH]; simpl; [reflexivity|].
  destruct (String.eqb_spec i a) as [->|Hne]; simpl; auto.
Qed.

Lemma lookup_row_map_snd (g : list cell -> list cell) i l :
  lookup_row i (map (fun r => (fst r, g (snd r))) l)
  = option_map g (lookup_row i l).
Proof.
  induction l as [|[j r] l IH]; simpl; [reflexivity|].
  destruct (i =? j)%string; auto.
Qed.

Lemma lookup_row_none i l : ~ In i (map fst l) -> lookup_row i l = None.
Proof.
  induction l as [|[j r] l IH]; simpl; [reflexivity|]. intros H.
  destruct (String.eqb_spec i j) as [->|Hne]; [tauto|]. apply IH. tauto.
Qed.

Lemma lookup_row_some i l : In i (map fst l) -> exists r, lookup_row i l = Some r.
Proof.
  induction l as [|[j r] l IH]; simpl; [tauto|]. intros H.
  destruct (String.eqb_spec i j) as [->|Hne]; [eauto|].
  apply IH. destruct H; congruence.
Qed.

Lemma columns_concat a b : columns (concat_axis1 a b) = columns a ++ columns b.
Proof. reflexivity. Qed.

Lemma index_concat a b :
  index (concat_axis1 a b) = union_index (index a) (index b).
Proof.
  unfold index, concat_axis1. simpl. rewrite map_map. simpl. apply map_id.
Qed.

Lemma in_union_index i a b : In i (union_index a b) <-> In i a \/ In i b.
Proof.
  unfold union_index. rewrite in_app_iff, filter_In. split.
  - intuition.
  - intros [H|H]; [now left|].
    destruct (existsb (String.eqb i) a) eqn:E.
    + left. now apply existsb_eqb_in.
    + right. split; [exact H | reflexivity].
Qed.

Lemma reindex_row_concat a b i :
  reindex_row (concat_axis1 a b) i = reindex_row a i ++ reindex_row b i.
Proof.
  unfold reindex_row at 1. unfold loc, concat_axis1. simpl.
  rewrite lookup_row_map.
  destruct (existsb (String.eqb i) (union_index (index a) (index b))) eqn:E;
    [reflexivity|].
  assert (Hn : ~ In i (union_index (index a) (index b))).
  { intros H. apply existsb_eqb_in in H. congruence. }
  rewrite in_union_index in Hn. unfold reindex_row, loc.
  rewrite !lookup_row_none by (unfold index in Hn; tauto).
  now rewrite List.length_app, repeat_app.
Qed.

Lemma columns_fold ms m :
  columns (fold_left concat_axis1 ms m) = columns m ++ flat_map columns ms.
Proof.
  revert m. induction ms as [|x ms IH]; intros m; simpl.
  - now rewrite app_nil_r.
  - rewrite IH, columns_concat. now rewrite app_assoc.
Qed.

Lemma reindex_row_fold ms m i :
  reindex_row (fold_left concat_axis1 ms m) i
  = reindex_row m i ++ flat_map (fun x => reindex_row x i) ms.
Proof.
  revert m. induction ms as [|x ms IH]; intros m; simpl.
  - now rewrite app_nil_r.
  - rewrite IH, reindex_row_concat. now rewrite app_assoc.
Qed.

Lemma columns_merge_all ms : columns (merge_all ms) = flat_map columns ms.
Proof. destruct ms; [reflexivity | apply columns_fold]. Qed.

Lemma reindex_row_merge_all ms i :
  reindex_row (merge_all ms) i = flat_map (fun x => reindex_row x i) ms.
Proof. destruct ms; [reflexivity | apply reindex_row_fold]. Qed.

(** *** Sums by group *)


Lemma sumZ_map_add {A} (f g : A -> Z) l :
  sumZ (map (fun a => f a + g a) l) = sumZ (map f l) + sumZ (map g l).
Proof. unfold sumZ. induction l; simpl; lia. Qed.

Lemma sumZ_map_zero {A} (l : list A) : sumZ (map (fun _ => 0) l) = 0.
Proof. unfold sumZ. induction l; simpl; lia. Qed.

Section SumByKey.
Context {K A : Type} (eqb : K -> K -> bool).
Hypothesis eqb_spec : forall k k', reflect (k = k') (eqb k k').

Lemma sumZ_indicator k c keys :
  NoDup keys -> In k keys ->
  sumZ (map (fun k' => if eqb k k' then c else 0) keys) = c.
Proof.
  induction 1 as [|a keys Ha Hnd IH]; intros Hin; [destruct Hin|].
  cbn [map sumZ fold_right].
  fold (sumZ (map (fun k' => if eqb k k' then c else 0) keys)).
  destruct (eqb_spec k a) as [->|Hne].
  - assert (E : sumZ (map (fun k' => if eqb a k' then c else 0) keys) = 0).
    { transitivity (sumZ (map (fun _ : K => 0) keys)); [|apply sumZ_map_zero].
      f_equal. apply map_ext_in.
      intros k' Hk'. destruct (eqb_spec a k'); [congruence|reflexivity]. }
    lia.
  - destruct Hin as [->|Hin]; [congruence|]. rewrite IH by exact Hin. lia.
Qed.

(** Summing group by group, over distinct keys that cover the rows, is
    summing over the rows. *)
Lemma sum_by_key (key : A -> K) (v : A -> Z) keys recs :
  NoDup keys -> (forall r, In r recs -> In (key r) keys) ->
  sumZ (map (fun k => sumZ (map v (filter (fun r => eqb (key r) k) recs))) keys)
  = sumZ (map v recs).
Proof.
  intros Hnd. induction recs as [|r recs IH]; intros Hcov.
  - simpl. apply sumZ_map_zero.
  - transitivity
      (sumZ (map (fun k => (if eqb (key r) k then v r else 0)
                           + sumZ (map v (filter (fun r' => eqb (key r') k) recs)))
                 keys)).
    + f_equal. apply map_ext. intros k. simpl.
      destruct (eqb (key r) k); reflexivity.
    + rewrite sumZ_map_add, sumZ_indicator, IH; simpl; auto.
      * intros r' Hr'. apply Hcov. now right.
      * apply Hcov. now left.
Qed.
End SumByKey.

Lemma nansum_agg {A} (f : A -> list Z) l :
  nansum (map (fun a => agg_sum (f a)) l) = sumZ (map (fun a => sumZ (f a)) l).
Proof.
  induction l as [|a l IH]; [reflexivity|].
  cbn [map nansum fold_right sumZ]. fold (nansum (map (fun a => agg_sum (f a)) l)).
  fold (sumZ (map (fun a => sumZ (f a)) l)). rewrite IH.
  destruct (f a); reflexivity.
Qed.

Lemma nansum_agg_all {A} (f : A -> list Z) l :
  nansum (map (fun a => agg_sum_all (f a)) l) = sumZ (map (fun a => sumZ (f a)) l).
Proof.
  induction l as [|a l IH]; [reflexivity|].
  cbn [map nansum fold_right sumZ]. fold (nansum (map (fun a => agg_sum_all (f a)) l)).
  fold (sumZ (map (fun a => sumZ (f a)) l)). now rewrite IH.
Qed.

Lemma bin_values_map o lbl (h : Z -> cell) cols :
  bin_values o lbl cols (map h cols)
  = map h (filter (fun d => rollforward o d =? lbl) cols).
Proof.
  unfold bin_values. induction cols as [|c cols IH]; [reflexivity|].
  simpl. destruct (rollforward o c =? lbl); simpl; now rewrite IH.
Qed.

(** *** The dtype of [Item] *)









Lemma Item_categories_NoDup df cats : Item_categories df = Some cats -> NoDup cats.
Proof.
  unfold Item_categories.
  destruct (map categories_of (file_chunks df)) as [|c cs] eqn:E; [discriminate|].
  destruct (forallb _ cs); [|discriminate]. intros H. inversion H. subst cats.
  destruct (file_chunks df) as [|ch chs]; [discriminate|].
  inversion E.
  apply (sort_unique_NoDup String_as_OT.compare String_as_OT.lt
           String_as_OT.compare_spec String_as_OT.lt_strorder).
Qed.


Lemma take_map {A B} (f : A -> B) n l : take n (map f l) = map f (take n l).
Proof.
  revert n. induction l as [|a l IH]; intros n; [reflexivity|]. simpl.
  destruct (0 <? n); [simpl; now rewrite IH | reflexivity].
Qed.

Lemma drop_map {A B} (f : A -> B) n l : drop n (map f l) = map f (drop n l).
Proof.
  revert n. induction l as [|a l IH]; intros n; [reflexivity|]. simpl.
  destruct (0 <? n); [apply IH | reflexivity].
Qed.

Lemma chunks_of_items fuel n df df' :
  map Item df = map Item df' ->
  map (map Item) (chunks_of fuel n df) = map (map Item) (chunks_of fuel n df').
Proof.
  revert df df'. induction fuel as [|fuel IH]; intros df df' H; [reflexivity|].
  destruct df as [|r df], df' as [|r' df']; try discriminate; [reflexivity|].
  cbn [chunks_of]. cbn [map]. f_equal.
  - rewrite <- !take_map. now rewrite H.
  - apply IH. rewrite <- !drop_map. now rewrite H.
Qed.

(** The dtype of [Item] depends on the column [Item] alone. *)
Lemma Item_categories_ext df df' :
  map Item df = map Item df' -> Item_categories df = Item_categories df'.
Proof.
  intros H. unfold Item_categories, file_chunks, categories_of.
  assert (L : List.length df = List.length df')
    by (rewrite <- (length_map Item df), H; apply length_map).
  rewrite <- !(map_map (map Item) (sort_unique String_as_OT.compare)).
  now rewrite L, (chunks_of_items _ _ df df' H).
Qed.

(** *** The pivot of a chunk and its resampling *)

Lemma pivot_columns cats data :
  columns (pivot_table cats data) = sort_unique Z.compare (map Long.date data).
Proof. destruct cats; reflexivity. Qed.

Lemma pivot_columns_in cats data d :
  In d (columns (pivot_table cats data)) <-> In d (map Long.date data).
Proof.
  rewrite pivot_columns. apply (sort_unique_in Z.compare Z.lt Z.compare_spec).
Qed.

Lemma pivot_columns_NoDup cats data : NoDup (columns (pivot_table cats data)).
Proof.
  rewrite pivot_columns.
  apply (sort_unique_NoDup Z.compare Z.lt Z.compare_spec Z.lt_strorder).
Qed.

(** The pivot has no column exactly when it is given no row. *)
Lemma pivot_columns_nil cats data :
  columns (pivot_table cats data) = [] -> data = [].
Proof.
  intros H. destruct data as [|r data]; [reflexivity|].
  assert (Hin : In (Long.date r) (columns (pivot_table cats (r :: data)))).
  { apply pivot_columns_in. now left. }
  rewrite H in Hin. destruct Hin.
Qed.

Lemma pivot_index_some cats data : index (pivot_table (Some cats) data) = cats.
Proof. unfold index, pivot_table. simpl. rewrite map_map. simpl. apply map_id. Qed.

Lemma pivot_index_in data i :
  In i (index (pivot_table None data)) <-> In i (map Long.unique_id data).
Proof.
  unfold index, pivot_table. simpl. rewrite map_map. simpl. rewrite map_id.
  apply (sort_unique_in String_as_OT.compare String_as_OT.lt
           String_as_OT.compare_spec).
Qed.

Lemma pivot_index_NoDup data : NoDup (index (pivot_table None data)).
Proof.
  unfold index, pivot_table. simpl. rewrite map_map. simpl. rewrite map_id.
  apply (sort_unique_NoDup String_as_OT.compare String_as_OT.lt
           String_as_OT.compare_spec String_as_OT.lt_strorder).
Qed.

Lemma loc_pivot data i :
  loc (pivot_table None data) i
  = if existsb (String.eqb i) (map Long.unique_id data)
    then Some (map (fun d => agg_sum (map Long.y (group data i d)))
                   (columns (pivot_table None data)))
    else None.
Proof.
  unfold loc, pivot_table. simpl.
  rewrite (lookup_row_map
             (fun i => map (fun d => agg_sum (map Long.y (group data i d)))
                           (sort_unique Z.compare (map Long.date data)))).
  rewrite (bool_eq_iff
             (existsb (String.eqb i)
                (sort_unique String_as_OT.compare (map Long.unique_id data)))
             (existsb (String.eqb i) (map Long.unique_id data))); [reflexivity|].
  rewrite !existsb_eqb_in.
  apply (sort_unique_in String_as_OT.compare String_as_OT.lt
           String_as_OT.compare_spec).
Qed.

Lemma loc_pivot_some cats data i :
  loc (pivot_table (Some cats) data) i
  = if existsb (String.eqb i) cats
    then Some (map (fun d => agg_sum_all (map Long.y (group data i d)))
                   (columns (pivot_table (Some cats) data)))
    else None.
Proof.
  unfold loc, pivot_table. simpl.
  apply (lookup_row_map
           (fun i => map (fun d => agg_sum_all (map Long.y (group data i d)))
                         (sort_unique Z.compare (map Long.date data)))).
Qed.

Lemma loc_resample o t i :
  loc (resample_sum o t) i
  = option_map
      (fun r => map (fun lbl => Some (nansum (bin_values o lbl (columns t) r)))
                    (bin_labels o (columns t)))
      (loc t i).
Proof.
  unfold loc, resample_sum. simpl.
  apply (lookup_row_map_snd
           (fun r => map (fun lbl => Some (nansum (bin_values o lbl (columns t) r)))
                         (bin_labels o (columns t)))).
Qed.

Lemma group_in_period o data i k lbl :
  rollforward o k = lbl ->
  group data i k
  = filter (fun r => Long.date r =? k)
      (filter (fun r => (Long.unique_id r =? i)%string
                        && (rollforward o (Long.date r) =? lbl)) data).
Proof.
  intros Hk. unfold group. induction data as [|r data IH]; [reflexivity|].
  simpl. destruct (Long.unique_id r =? i)%string; simpl.
  - destruct (Z.eqb_spec (Long.date r) k) as [E|E].
    + rewrite E, Hk, Z.eqb_refl. simpl. rewrite E, Z.eqb_refl. now f_equal.
    + destruct (rollforward o (Long.date r) =? lbl); simpl; auto.
      destruct (Z.eqb_spec (Long.date r) k); [contradiction | exact IH].
  - exact IH.
Qed.

(** A resampled cell is the sum of [y] over the rows of the series in
    the period. *)
Lemma resample_pivot_sum o cats data i lbl :
  sumZ (map (fun d => sumZ (map Long.y (group data i d)))
          (filter (fun d => rollforward o d =? lbl) (columns (pivot_table cats data))))
  = sumZ (map Long.y
            (filter (fun r => (Long.unique_id r =? i)%string
                              && (rollforward o (Long.date r) =? lbl)) data)).
Proof.
  set (keys := filter (fun d => rollforward o d =? lbl) (columns (pivot_table cats data))).
  set (recs := filter (fun r => (Long.unique_id r =? i)%string
                                && (rollforward o (Long.date r) =? lbl)) data).
  rewrite <- (sum_by_key Z.eqb Z.eqb_spec Long.date Long.y keys recs).
  - f_equal. apply map_ext_in. intros k Hk.
    apply filter_In in Hk as [_ Hk]. apply Z.eqb_eq in Hk.
    unfold recs. now rewrite <- (group_in_period o data i k lbl Hk).
  - apply NoDup_filter, pivot_columns_NoDup.
  - intros r Hr. apply filter_In in Hr as [Hr Hp].
    apply andb_true_iff in Hp as [_ Hp].
    apply filter_In. split; [|exact Hp].
    apply pivot_columns_in. now apply in_map.
Qed.

Lemma resample_pivot_cell o data i lbl :
  nansum (bin_values o lbl (columns (pivot_table None data))
            (map (fun d => agg_sum (map Long.y (group data i d)))
                 (columns (pivot_table None data))))
  = sumZ (map Long.y
            (filter (fun r => (Long.unique_id r =? i)%string
                              && (rollforward o (Long.date r) =? lbl)) data)).
Proof.
  rewrite bin_values_map.
  rewrite (nansum_agg (fun d => map Long.y (group data i d))).
  apply resample_pivot_sum.
Qed.

Lemma resample_pivot_cell_some o cats data i lbl :
  nansum (bin_values o lbl (columns (pivot_table (Some cats) data))
            (map (fun d => agg_sum_all (map Long.y (group data i d)))
                 (columns (pivot_table (Some cats) data))))
  = sumZ (map Long.y
            (filter (fun r => (Long.unique_id r =? i)%string
                              && (rollforward o (Long.date r) =? lbl)) data)).
Proof.
  rewrite bin_values_map.
  rewrite (nansum_agg_all (fun d => map Long.y (group data i d))).
  apply resample_pivot_sum.
Qed.

Lemma filter_drop_rename (p : Long.t -> bool) l :
  filter p (map drop_rename l) = map drop_rename (filter (fun r => p (drop_rename r)) l).
Proof.
  induction l as [|r l IH]; [reflexivity|]. simpl.
  destruct (p (drop_rename r)); simpl; now rewrite IH.
Qed.

Lemma filter_andb {A} (p q : A -> bool) l :
  filter (fun a => p a && q a) l = filter q (filter p l).
Proof.
  induction l as [|a l IH]; [reflexivity|]. simpl.
  destruct (p a); simpl; [destruct (q a)|]; now rewrite IH.
Qed.

Lemma has_series_spec i chunk :
  existsb (String.eqb i) (map Long.unique_id (map drop_rename chunk))
  = has_series i chunk.
Proof.
  unfold has_series. induction chunk as [|r chunk IH]; [reflexivity|].
  simpl. now rewrite IH, String.eqb_sym.
Qed.

(** The row of a series in the matrix of a window. *)
Lemma reindex_row_window o df w i :
  reindex_row (window_matrix o df w) i = window_row o df i w.
Proof.
  unfold reindex_row, window_row, window_matrix, has_row.
  set (chunk := between df (fst w) (snd w)).
  rewrite loc_resample.
  destruct (Item_categories df) as [cats|].
  - rewrite loc_pivot_some.
    destruct (existsb (String.eqb i) cats); [|reflexivity].
    cbn [option_map]. apply map_ext. intros lbl. f_equal.
    rewrite resample_pivot_cell_some, filter_drop_rename, map_map. simpl.
    unfold sum_y, in_period, of_series.
    now rewrite (filter_andb (fun r => (Item r =? i)%string)
                   (fun r => rollforward o (date r) =? lbl)).
  - rewrite loc_pivot, has_series_spec.
    destruct (has_series i chunk); [|reflexivity].
    cbn [option_map]. apply map_ext. intros lbl. f_equal.
    rewrite resample_pivot_cell, filter_drop_rename, map_map. simpl.
    unfold sum_y, in_period, of_series.
    now rewrite (filter_andb (fun r => (Item r =? i)%string)
                   (fun r => rollforward o (date r) =? lbl)).
Qed.

(* ================================================================= *)
(** ** The loop of [read_case_1] *)

Lemma to_offset_alias o : to_offset (alias o) = Some o.
Proof. destruct o; reflexivity. Qed.

Lemma chunk_size_of_alias o w :
  chunk_size_of (alias o) w = (inr (chunk_days o), w).
Proof. destruct o; reflexivity. Qed.

Lemma pivot_resample_alias o cats chunk w :
  pivot_resample (alias o) cats chunk w
  = match chunk with
    | [] => (inl AttributeError, w)
    | _ => (inr (resample_sum o (pivot_table cats (map drop_rename chunk))), w)
    end.
Proof.
  unfold pivot_resample, resample. rewrite to_offset_alias.
  destruct chunk as [|r chunk]; [now destruct cats|].
  destruct (columns (pivot_table cats (map drop_rename (r :: chunk)))) eqn:E;
    [|reflexivity].
  apply pivot_columns_nil in E. discriminate.
Qed.

Lemma chunk_days_gt o : 13 < chunk_days o.
Proof. destruct o; simpl; lia. Qed.

Section Loop.
Variables (df : list Row) (path : string) (o : offset).
Variables (c dmax : Z).

(** One turn of the loop. *)
Lemma while_loop_turn fuel save s out w :
  while_loop (S fuel) df path (alias o) save c dmax s out w
  = if s + c <? dmax then
      match between df s (s + c) with
      | [] => (inl AttributeError, w)
      | _ =>
          let out' := concat_axis1 out (window_matrix o df (s, s + c)) in
          match (if save then to_csv out' path else ret tt) w with
          | (inl e, w') => (inl e, w')
          | (inr _, w') =>
              while_loop fuel df path (alias o) save c dmax (s + c - 1) out' w'
          end
      end
    else (inr (s, out), w).
Proof.
  cbn [while_loop]. destruct (s + c <? dmax); [|reflexivity].
  unfold bind at 1. rewrite pivot_resample_alias.
  unfold window_matrix. cbn [fst snd].
  destruct (between df s (s + c)); reflexivity.
Qed.

(** Whatever [to_csv] does, a value returned by the loop is the
    running matrix merged with the matrices of the loop's windows, and
    each of these windows held a row. *)
Lemma while_loop_inr fuel save s out w s' out' w' :
  while_loop fuel df path (alias o) save c dmax s out w = (inr (s', out'), w') ->
  s' = loop_start fuel c dmax s
  /\ out' = fold_left concat_axis1 (map (window_matrix o df) (loop_windows fuel c dmax s)) out
  /\ chunks_nonempty (loop_windows fuel c dmax s) df = true.
Proof.
  revert s out w. induction fuel as [|fuel IH]; intros s out w H.
  - cbn in H. unfold ret in H. inversion H. now subst.
  - rewrite while_loop_turn in H. cbn [loop_start loop_windows].
    destruct (s + c <? dmax); [|inversion H; now subst].
    cbn [chunks_nonempty forallb fst snd map fold_left].
    destruct (between df s (s + c)); [discriminate|].
    cbv zeta in H.
    destruct ((if save then to_csv _ path else ret tt) w) as [[e|u] w1];
      [discriminate|].
    apply IH in H. exact H.
Qed.





(** More fuel than [date_max - start_date] changes nothing. *)
Lemma while_loop_enough fuel fuel' save s out w :
  1 < c -> (Z.to_nat (dmax - s) <= fuel)%nat -> (fuel <= fuel')%nat ->
  while_loop fuel' df path (alias o) save c dmax s out w
  = while_loop fuel df path (alias o) save c dmax s out w.
Proof.
  intros Hc. revert fuel' s out w.
  induction fuel as [|fuel IH]; intros fuel' s out w Hf Hle.
  - destruct fuel'; [reflexivity|]. rewrite while_loop_turn.
    destruct (s + c <? dmax) eqn:E; [lia | reflexivity].
  - destruct fuel'; [lia|]. rewrite !while_loop_turn.
    destruct (s + c <? dmax) eqn:E; [|reflexivity].
    destruct (between df s (s + c)); [reflexivity|]. cbv zeta.
    destruct ((if save then to_csv _ path else ret tt) w) as [[e|u] w1];
      [reflexivity|].
    apply IH; lia.
Qed.

(** The fuel is enough: the loop stops on its own test. *)
Lemma loop_start_exit fuel s :
  1 < c -> (Z.to_nat (dmax - s) <= fuel)%nat ->
  dmax <= loop_start fuel c dmax s + c.
Proof.
  intros Hc. revert s. induction fuel as [|fuel IH]; intros s Hf; simpl.
  - lia.
  - destruct (s + c <? dmax) eqn:E; [apply IH|]; lia.
Qed.

Lemma loop_windows_enough fuel fuel' s :
  1 < c -> (Z.to_nat (dmax - s) <= fuel)%nat -> (fuel <= fuel')%nat ->
  loop_windows fuel' c dmax s = loop_windows fuel c dmax s.
Proof.
  intros Hc. revert fuel' s.
  induction fuel as [|fuel IH]; intros fuel' s Hf Hle.
  - destruct fuel'; [reflexivity|]. simpl.
    destruct (s + c <? dmax) eqn:E; [lia | reflexivity].
  - destruct fuel'; [lia|]. simpl.
    destruct (s + c <? dmax) eqn:E; [|reflexivity].
    f_equal. apply IH; lia.
Qed.
End Loop.

Section Engine.
Variables (df : list Row) (path : string) (o : offset).

Lemma read_case_1_running save w :
  read_case_1 df path (alias o) save w
  = running_matrix (loop_fuel o df) df path (alias o) save w.
Proof.
  unfold read_case_1, running_matrix, loop_fuel, bind.
  rewrite chunk_size_of_alias. destruct df; reflexivity.
Qed.

(** The first chunk. *)
Lemma running_first n save w m dmax :
  date_min df = Some m -> date_max df = Some dmax ->
  running_matrix n df path (alias o) save w
  = match between df m (m + chunk_days o) with
    | [] => (inl AttributeError, w)
    | _ =>
        match while_loop n df path (alias o) save (chunk_days o) dmax
                (m + chunk_days o - 1) (window_matrix o df (m, m + chunk_days o)) w
        with
        | (inl e, w') => (inl e, w')
        | (inr st, w') => (inr (snd st), w')
        end
    end.
Proof.
  intros Em Ed. unfold running_matrix, bind. rewrite chunk_size_of_alias, Em, Ed.
  rewrite pivot_resample_alias. unfold window_matrix. cbn [fst snd].
  destruct (between df m (m + chunk_days o)); reflexivity.
Qed.

Lemma running_inr n save w out w' :
  running_matrix n df path (alias o) save w = (inr out, w') ->
  out = merge_all (map (window_matrix o df) (windows_upto n o df))
  /\ df <> []
  /\ chunks_nonempty (windows_upto n o df) df = true.
Proof.
  destruct (date_min df) as [m|] eqn:Em.
  2:{ unfold running_matrix, bind. rewrite chunk_size_of_alias, Em. discriminate. }
  destruct (date_max df) as [dmax|] eqn:Ed.
  2:{ unfold running_matrix, bind. rewrite chunk_size_of_alias, Em, Ed. discriminate. }
  rewrite (running_first n save w m dmax Em Ed).
  unfold windows_upto. rewrite Em, Ed. cbv zeta.
  cbn [chunks_nonempty forallb fst snd map merge_all].
  destruct (between df m (m + chunk_days o)); [discriminate|].
  destruct (while_loop _ _ _ _ _ _ _ _ _ _) as [[e|[s' out']] w1] eqn:E;
    [discriminate|].
  apply while_loop_inr in E as (_ & -> & Hne). intros H. inversion H.
  repeat split; [|exact Hne]. intros ->. discriminate.
Qed.





(** The fuel of [read_case_1] is no cut-off: any larger number of
    turns allowed gives the same outcome. *)
Lemma running_matrix_enough n save w :
  (loop_fuel o df <= n)%nat ->
  running_matrix n df path (alias o) save w
  = read_case_1 df path (alias o) save w.
Proof.
  intros Hn. rewrite read_case_1_running. revert Hn.
  unfold running_matrix, loop_fuel, bind. rewrite chunk_size_of_alias.
  destruct (date_min df) as [m|], (date_max df) as [dmax|]; try reflexivity.
  intros Hn. rewrite pivot_resample_alias.
  destruct (between df m (m + chunk_days o)); [reflexivity|].
  pose proof (chunk_days_gt o).
  rewrite (while_loop_enough df path o (chunk_days o) dmax
             (Z.to_nat (dmax - (m + chunk_days o - 1))) n) by lia.
  reflexivity.
Qed.

(** What [read_case_1] returns when it returns. *)
Lemma read_case_1_inr save w out w' :
  read_case_1 df path (alias o) save w = (inr out, w') ->
  out = merge_all (map (window_matrix o df) (windows o df)).
Proof. rewrite read_case_1_running. intros H. now apply running_inr in H. Qed.

(** It returns only when each of its windows holds a row. *)
Lemma read_case_1_inr_rows save w out w' :
  read_case_1 df path (alias o) save w = (inr out, w') ->
  df <> [] /\ chunks_nonempty (windows o df) df = true.
Proof. rewrite read_case_1_running. intros H. now apply running_inr in H. Qed.



(** The rows and columns of the merged matrix, window by window. *)
Lemma merged_columns ws :
  columns (merge_all (map (window_matrix o df) ws))
  = flat_map (fun w => columns (window_matrix o df w)) ws.
Proof. rewrite columns_merge_all. now rewrite flat_map_concat_map, map_map, <- flat_map_concat_map. Qed.

Lemma merged_row ws i :
  reindex_row (merge_all (map (window_matrix o df) ws)) i
  = flat_map (window_row o df i) ws.
Proof.
  rewrite reindex_row_merge_all.
  rewrite flat_map_concat_map, map_map, <- flat_map_concat_map.
  apply flat_map_ext. intros w. apply reindex_row_window.
Qed.
End Engine.

(* ================================================================= *)
(** ** The windows *)

Section Windows.
Variables (c dmax : Z).
Hypothesis Hc : 1 < c.

Lemma loop_start_ge fuel s : s <= loop_start fuel c dmax s.
Proof.
  revert s. induction fuel as [|fuel IH]; intros s; simpl; [lia|].
  destruct (s + c <? dmax); [|lia]. specialize (IH (s + c - 1)). lia.
Qed.

Lemma loop_windows_lower fuel s win :
  In win (loop_windows fuel c dmax s) ->
  s <= fst win /\ snd win = fst win + c.
Proof.
  revert s. induction fuel as [|fuel IH]; intros s; simpl; [tauto|].
  destruct (s + c <? dmax); [|intros []].
  intros [<-|H]; [simpl; lia|]. apply IH in H. lia.
Qed.

(** The windows of the loop cover the days after [start_date] up to
    the last value of [start_date], and nothing else. *)
Lemma loop_windows_cover fuel s d :
  existsb (fun w => in_window w d) (loop_windows fuel c dmax s) = true
  <-> s < d <= loop_start fuel c dmax s.
Proof.
  revert s. induction fuel as [|fuel IH]; intros s; simpl.
  - split; [discriminate | lia].
  - destruct (s + c <? dmax); simpl; [|split; [discriminate | lia]].
    rewrite orb_true_iff, IH. unfold in_window. simpl.
    pose proof (loop_start_ge fuel (s + c - 1)).
    rewrite andb_true_iff, Z.ltb_lt, Z.gtb_lt. lia.
Qed.

End Windows.

Lemma date_min_le_max df m dmax :
  date_min df = Some m -> date_max df = Some dmax -> m <= dmax.
Proof.
  destruct df as [|r df]; [discriminate|]. simpl. intros [= <-] [= <-].
  pose proof (proj1 (list_min_spec (date r) (map date df)) _ (or_introl eq_refl)).
  pose proof (proj1 (list_max_spec (date r) (map date df)) _ (or_introl eq_refl)).
  lia.
Qed.

Lemma windows_upto_lower n o df m win :
  date_min df = Some m -> In win (windows_upto n o df) -> m <= fst win.
Proof.
  unfold windows_upto. intros ->. destruct (date_max df) as [dmax|]; [|intros []].
  pose proof (chunk_days_gt o) as Hc.
  intros [<-|H]; [simpl; lia|].
  apply loop_windows_lower in H; lia.
Qed.

(** The days [read_case_1] reads: those after the earliest day, up to
    the last value of [start_date]. *)
Lemma windows_cover o df m dmax d :
  date_min df = Some m -> date_max df = Some dmax ->
  existsb (fun w => in_window w d) (windows o df) = true
  <-> m < d <= loop_start (loop_fuel o df) (chunk_days o) dmax (m + chunk_days o - 1).
Proof.
  unfold windows, windows_upto. intros -> ->. pose proof (chunk_days_gt o).
  cbn [existsb]. rewrite orb_true_iff, loop_windows_cover by lia.
  pose proof (loop_start_ge (chunk_days o) dmax ltac:(lia)
                (loop_fuel o df) (m + chunk_days o - 1)).
  unfold in_window. simpl. rewrite andb_true_iff, Z.ltb_lt, Z.gtb_lt. lia.
Qed.


(** The loop of [read_case_1] stops on its own test, not for want of
    fuel. *)
Lemma read_case_1_fuel_enough o df m dmax :
  date_min df = Some m -> date_max df = Some dmax ->
  dmax <= loop_start (loop_fuel o df) (chunk_days o) dmax (m + chunk_days o - 1)
          + chunk_days o.
Proof.
  intros Hm Hx. pose proof (chunk_days_gt o).
  apply loop_start_exit; [lia|]. unfold loop_fuel. rewrite Hm, Hx. lia.
Qed.

(* ================================================================= *)
(** ** Cells of a window *)

Lemma loc_window o df w i :
  loc (window_matrix o df w) i
  = if has_row df i (between df (fst w) (snd w))
    then Some (window_row o df i w)
    else None.
Proof.
  pose proof (reindex_row_window o df w i) as H.
  unfold reindex_row, window_row, has_row in *. unfold window_matrix in *.
  rewrite loc_resample in *.
  destruct (Item_categories df) as [cats|].
  - rewrite loc_pivot_some in *.
    destruct (existsb (String.eqb i) cats); [|reflexivity].
    cbn [option_map] in *. now rewrite H.
  - rewrite loc_pivot, has_series_spec in *.
    destruct (has_series i (between df (fst w) (snd w))); [|reflexivity].
    cbn [option_map] in *. now rewrite H.
Qed.

Lemma has_series_in i chunk : has_series i chunk = true <-> In i (map Item chunk).
Proof.
  unfold has_series. rewrite existsb_exists, in_map_iff. split.
  - intros (r & Hr & E). apply String.eqb_eq in E. eauto.
  - intros (r & E & Hr). exists r. split; [exact Hr|]. now apply String.eqb_eq.
Qed.

(* ================================================================= *)
(** ** Rows dated on the earliest day *)

Lemma date_min_ext df df' : map date df = map date df' -> date_min df = date_min df'.
Proof.
  destruct df as [|r df], df' as [|r' df']; try discriminate; [reflexivity|].
  simpl. intros H. now inversion H.
Qed.

Lemma date_max_ext df df' : map date df = map date df' -> date_max df = date_max df'.
Proof.
  destruct df as [|r df], df' as [|r' df']; try discriminate; [reflexivity|].
  simpl. intros H. now inversion H.
Qed.

Lemma between_off_day m df s e :
  m <= s -> between df s e = between (off_day m df) s e.
Proof.
  intros Hs. unfold between, off_day.
  induction df as [|r df IH]; [reflexivity|]. simpl.
  destruct (Z.eqb_spec (date r) m) as [E|E]; simpl.
  - replace (date r >? s) with false by (symmetry; rewrite Z.gtb_ltb; apply Z.ltb_ge; lia).
    rewrite andb_false_r. exact IH.
  - destruct ((date r <? e) && (date r >? s)); now rewrite IH.
Qed.

Lemma while_loop_ext df df' path freq save c dmax m fuel s out w :
  1 <= c ->
  Item_categories df = Item_categories df' ->
  (forall s e, m <= s -> between df s e = between df' s e) ->
  m <= s ->
  while_loop fuel df path freq save c dmax s out w
  = while_loop fuel df' path freq save c dmax s out w.
Proof.
  intros Hc Hcat Hb. revert s out w.
  induction fuel as [|fuel IH]; intros s out w Hs; [reflexivity|].
  cbn [while_loop]. destruct (s + c <? dmax); [|reflexivity].
  rewrite (Hb s (s + c) Hs), Hcat. unfold bind.
  destruct (pivot_resample freq (Item_categories df') (between df' s (s + c)) w)
    as [[e|t] w1]; [reflexivity|].
  destruct ((if save then to_csv _ path else ret tt) w1) as [[e|u] w2];
    [reflexivity|].
  apply IH. lia.
Qed.

(* ================================================================= *)
(** ** Checkpoints and series across windows *)



Lemma index_window o df w i :
  In i (index (window_matrix o df w))
  <-> has_row df i (between df (fst w) (snd w)) = true.
Proof.
  pose proof (loc_window o df w i) as H. unfold loc in H. unfold index. split.
  - intros Hin. apply lookup_row_some in Hin as (r & E). rewrite E in H.
    destruct (has_row df i _); [reflexivity | discriminate].
  - intros Hs. rewrite Hs in H.
    destruct (in_dec string_dec i (map fst (rows (window_matrix o df w))))
      as [Hin|Hn]; [exact Hin|].
    apply lookup_row_none in Hn. congruence.
Qed.

Lemma index_fold ms m i :
  In i (index (fold_left concat_axis1 ms m))
  <-> In i (index m) \/ exists x, In x ms /\ In i (index x).
Proof.
  revert m. induction ms as [|a ms IH]; intros m; simpl.
  - split; [auto | intros [H|(x & [] & _)]; exact H].
  - rewrite IH, index_concat, in_union_index. split.
    + intros [[H|H]|(x & Hx & H)]; eauto.
    + intros [H|(x & [<-|Hx] & H)]; eauto.
Qed.

Lemma index_merge_all ms i :
  In i (index (merge_all ms)) <-> exists x, In x ms /\ In i (index x).
Proof.
  destruct ms as [|m ms]; simpl.
  - split; [intros [] | intros (x & [] & _)].
  - rewrite index_fold. split.
    + intros [H|(x & Hx & H)]; eauto.
    + intros (x & [<-|Hx] & H); eauto.
Qed.

Lemma loc_reindex t i : In i (index t) -> loc t i = Some (reindex_row t i).
Proof.
  intros H. apply lookup_row_some in H as (r & E).
  unfold reindex_row, loc. now rewrite E.
Qed.

Lemma window_rows_absent o df i ws :
  (forall w, In w ws -> has_row df i (between df (fst w) (snd w)) = false) ->
  flat_map (window_row o df i) ws
  = repeat None
      (List.length (flat_map (fun w => columns (window_matrix o df w)) ws)).
Proof.
  induction ws as [|w ws IH]; intros H; [reflexivity|]. cbn [flat_map].
  rewrite List.length_app, repeat_app, <- IH by (intros; apply H; now right).
  f_equal. unfold window_row. now rewrite H by now left.
Qed.

(* ================================================================= *)
(** ** Order of the columns *)

Lemma sorted_lt_le l : StronglySorted Z.lt l -> StronglySorted Z.le l.
Proof.
  induction 1 as [|a l Hs IH Ha]; constructor; [exact IH|].
  eapply Forall_impl; [|exact Ha]. intros x Hx. lia.
Qed.

Lemma sorted_app l1 l2 b :
  StronglySorted Z.le l1 -> StronglySorted Z.le l2 ->
  Forall (fun x => x <= b) l1 -> Forall (fun x => b <= x) l2 ->
  StronglySorted Z.le (l1 ++ l2).
Proof.
  intros H1 H2 B1 B2. induction H1 as [|a l Hs IH Ha]; [exact H2|].
  simpl. inversion B1 as [|? ? Hab Hl]; subst.
  constructor; [apply IH; exact Hl|].
  apply Forall_app. split; [exact Ha|].
  eapply Forall_impl; [|exact B2]. intros x Hx. cbv beta in Hx. lia.
Qed.

Lemma window_labels_between o df s e lbl :
  In lbl (columns (window_matrix o df (s, e))) ->
  rollforward o (s + 1) <= lbl <= rollforward o (e - 1).
Proof.
  unfold window_matrix, resample_sum. cbn [columns fst snd].
  apply bin_labels_between. intros d Hd.
  apply pivot_columns_in in Hd. rewrite map_map in Hd. simpl in Hd.
  apply in_map_iff in Hd as (r & <- & Hr).
  apply filter_In in Hr as [_ Hr].
  apply andb_true_iff in Hr as [H1 H2]. lia.
Qed.

Lemma window_labels_sorted o df w :
  StronglySorted Z.lt (columns (window_matrix o df w)).
Proof. apply bin_labels_sorted. Qed.

Lemma loop_labels_sorted o df c dmax fuel s :
  1 <= c ->
  let cols := flat_map (fun w => columns (window_matrix o df w))
                (loop_windows fuel c dmax s) in
  StronglySorted Z.le cols /\ Forall (fun x => rollforward o (s + 1) <= x) cols.
Proof.
  intros Hc. revert s. induction fuel as [|fuel IH]; intros s; cbn [loop_windows].
  - split; constructor.
  - destruct (s + c <? dmax); [|split; constructor].
    destruct (IH (s + c - 1)) as [Hs Hb]. cbn [flat_map].
    assert (Hw : forall lbl,
               In lbl (columns (window_matrix o df (s, s + c))) ->
               rollforward o (s + 1) <= lbl <= rollforward o (s + c - 1))
      by (intros lbl; apply window_labels_between).
    pose proof (rollforward_mono o (s + c - 1) (s + c - 1 + 1) ltac:(lia)).
    pose proof (rollforward_mono o (s + 1) (s + c - 1 + 1) ltac:(lia)).
    split.
    + apply (sorted_app _ _ (rollforward o (s + c - 1)));
        [apply sorted_lt_le, window_labels_sorted | exact Hs | |].
      * apply Forall_forall. intros x Hx. apply Hw in Hx. lia.
      * eapply Forall_impl; [|exact Hb]. intros x Hx. cbv beta in Hx. lia.
    + apply Forall_app. split.
      * apply Forall_forall. intros x Hx. apply Hw in Hx. lia.
      * eapply Forall_impl; [|exact Hb]. intros x Hx. cbv beta in Hx. lia.
Qed.

Lemma windows_labels_sorted n o df :
  StronglySorted Z.le
    (flat_map (fun w => columns (window_matrix o df w)) (windows_upto n o df)).
Proof.
  unfold windows_upto.
  destruct (date_min df) as [m|], (date_max df) as [dmax|]; try constructor.
  pose proof (chunk_days_gt o) as Hc. cbn [flat_map].
  destruct (loop_labels_sorted o df (chunk_days o) dmax n (m + chunk_days o - 1)
              ltac:(lia)) as [Hs Hb].
  pose proof (rollforward_mono o (m + chunk_days o - 1) (m + chunk_days o - 1 + 1)
                ltac:(lia)).
  apply (sorted_app _ _ (rollforward o (m + chunk_days o - 1)));
    [apply sorted_lt_le, window_labels_sorted | exact Hs | |].
  - apply Forall_forall. intros x Hx. apply window_labels_between in Hx. lia.
  - eapply Forall_impl; [|exact Hb]. intros x Hx. cbv beta in Hx. lia.
Qed.

(* ================================================================= *)
(** ** What the cells sum to *)




Lemma sumZ_perm l l' : Permutation l l' -> sumZ l = sumZ l'.
Proof. unfold sumZ. induction 1; simpl; lia. Qed.






Lemma union_index_NoDup a b : NoDup a -> NoDup b -> NoDup (union_index a b).
Proof.
  intros Ha Hb. unfold union_index. apply NoDup_app; [exact Ha| |].
  - now apply NoDup_filter.
  - intros i Hi Hf. apply filter_In in Hf as [_ Hf].
    apply (proj2 (existsb_eqb_in i a)) in Hi. now rewrite Hi in Hf.
Qed.




Lemma index_resample o t : index (resample_sum o t) = index t.
Proof. unfold index, resample_sum. cbn [rows]. now rewrite map_map. Qed.

Lemma window_index_NoDup o df w : NoDup (index (window_matrix o df w)).
Proof.
  unfold window_matrix. rewrite index_resample.
  destruct (Item_categories df) as [cats|] eqn:E.
  - rewrite pivot_index_some. exact (Item_categories_NoDup df cats E).
  - apply pivot_index_NoDup.
Qed.






(* ================================================================= *)
(** ** Rows of the matrix returned *)

Lemma windows_not_nil o df : df <> [] -> windows o df <> [].
Proof.
  intros H. unfold windows, windows_upto.
  destruct df as [|r df]; [contradiction | discriminate].
Qed.



(** The row of a series that has a row in the matrix of every window. *)
Lemma window_rows_present o df i ws :
  (forall w, In w ws -> has_row df i (between df (fst w) (snd w)) = true) ->
  flat_map (window_row o df i) ws
  = flat_map (fun w => map (fun lbl =>
                              Some (sum_y (in_period o lbl
                                             (of_series i (between df (fst w) (snd w))))))
                           (columns (window_matrix o df w))) ws.
Proof.
  induction ws as [|w ws IH]; intros H; [reflexivity|]. cbn [flat_map].
  rewrite IH by (intros; apply H; now right).
  f_equal. unfold window_row. now rewrite H by now left.
Qed.

(** A series with a row in the matrix of some window has a row in the
    matrix returned. *)
Lemma loc_merged o df i ws w :
  In w ws -> has_row df i (between df (fst w) (snd w)) = true ->
  loc (merge_all (map (window_matrix o df) ws)) i
  = Some (flat_map (window_row o df i) ws).
Proof.
  intros Hw Hi. rewrite loc_reindex; [now rewrite merged_row|].
  apply index_merge_all. exists (window_matrix o df w). split.
  - now apply in_map.
  - now apply index_window.
Qed.

(* ================================================================= *)
(** ** The claims *)

(** C5.  A frequency other than ["W"] and ["M"] makes [read_case_1]
    raise (a [ValueError]) before any chunk is filtered: whatever the
    data and the other arguments, the outcome is the exception, no
    matrix is returned and the world is untouched (nothing was written). *)
Theorem C5_unsupported_frequency_raises :
  forall df path frequency save w,
    frequency <> "W"%string -> frequency <> "M"%string ->
    read_case_1 df path frequency save w = (inl (ValueError unsupported), w).
Proof.
  intros df path frequency save w HW HM.
  unfold read_case_1, bind, chunk_size_of.
  destruct (String.eqb_spec frequency "W") as [E|_]; [contradiction|].
  destruct (String.eqb_spec frequency "M") as [E|_]; [contradiction|].
  reflexivity.
Qed.

Lemma C5_witness :
  "D"%string <> "W"%string /\ "D"%string <> "M"%string
  /\ read_case_1 [row "A" (ISO 2020 1 1) 5; row "A" (ISO 2020 3 8) 3]
       "out.csv" "D" true quiet
     = (inl (ValueError unsupported), quiet).
Proof.
  split; [discriminate|]. split; [discriminate|].
  apply C5_unsupported_frequency_raises; discriminate.
Defined.

(** C10.  The quantities of the rows dated on the earliest day of [df]
    reach no cell of the matrix [read_case_1] returns.  Two inputs with
    the same earliest and latest day, the same dtype of [Item] and the
    same rows off the earliest day give the same outcome, whatever their
    rows on the earliest day are and hold; in particular the quantities
    of the rows of the earliest day can be replaced by any others.  (The
    first filter asks for [date > start_date], line 121; the items of
    these rows still count among the categories of [Item].) *)
Theorem C10_earliest_day_excluded :
  forall o df m path save w,
    date_min df = Some m ->
    (forall df',
        date_min df' = Some m -> date_max df' = date_max df ->
        Item_categories df' = Item_categories df ->
        off_day m df' = off_day m df ->
        read_case_1 df' path (alias o) save w
        = read_case_1 df path (alias o) save w)
    /\ (forall f : Row -> Z,
          read_case_1
            (map (fun r => if date r =? m
                           then mkRow (DC r) (Shop r) (Item r) (date r) (f r)
                           else r) df)
            path (alias o) save w
          = read_case_1 df path (alias o) save w).
Proof.
  intros o df m path save w Hm.
  assert (H1 : forall df',
             date_min df' = Some m -> date_max df' = date_max df ->
             Item_categories df' = Item_categories df ->
             off_day m df' = off_day m df ->
             read_case_1 df' path (alias o) save w
             = read_case_1 df path (alias o) save w).
  { intros df' Hm' Hx Hcat Ho.
    assert (Hb : forall s e, m <= s -> between df' s e = between df s e).
    { intros s e Hs.
      now rewrite (between_off_day m df'), (between_off_day m df), Ho. }
    unfold read_case_1, bind. rewrite chunk_size_of_alias, Hm, Hm', Hx.
    destruct (date_max df) as [dmax|]; [|reflexivity].
    pose proof (chunk_days_gt o).
    rewrite (Hb m (m + chunk_days o)) by lia. rewrite Hcat.
    destruct (pivot_resample (alias o) _ _ w) as [[e|t] w1]; [reflexivity|].
    rewrite (while_loop_ext df' df path (alias o) save (chunk_days o) dmax m)
      by (auto; lia).
    reflexivity. }
  split; [exact H1|].
  intros f.
  set (g := fun r => if date r =? m
                     then mkRow (DC r) (Shop r) (Item r) (date r) (f r)
                     else r).
  assert (Hd : map date (map g df) = map date df).
  { rewrite map_map. apply map_ext. intros r. unfold g.
    now destruct (date r =? m). }
  apply H1.
  - now rewrite (date_min_ext _ _ Hd).
  - now rewrite (date_max_ext _ _ Hd).
  - apply Item_categories_ext. rewrite map_map. apply map_ext. intros r.
    unfold g. now destruct (date r =? m).
  - unfold off_day. clear. induction df as [|r df IH]; [reflexivity|].
    cbn [map filter]. unfold g at 1.
    destruct (date r =? m) eqn:E; cbn [date]; rewrite E; cbn [negb].
    + exact IH.
    + rewrite IH. unfold g. now rewrite E.
Qed.

Lemma C10_witness :
  let df := [row "A" (ISO 2020 1 1) 5; row "B" (ISO 2020 1 9) 2;
             row "A" (ISO 2020 1 20) 3; row "A" (ISO 2020 1 29) 4] in
  let df' := [row "B" (ISO 2020 1 1) 70; row "B" (ISO 2020 1 9) 2;
              row "A" (ISO 2020 1 1) 1; row "A" (ISO 2020 1 20) 3;
              row "A" (ISO 2020 1 29) 4] in
  read_case_1 df' "out.csv" "W" true quiet
  = read_case_1 df "out.csv" "W" true quiet.
Proof.
  intros df df'.
  refine (proj1 (C10_earliest_day_excluded Week_SUN df (ISO 2020 1 1)
                   "out.csv"%string true quiet _) df' _ _ _ _);
    vm_compute; reflexivity.
Defined.










(** C8 (as amended).  For the rows (A, 2020-01-01, 5), (A, 2020-01-08, 3)
    and (B, 2020-01-03, 2) and the frequency ["W"] (the chunk is 14 days:
    the code has no span argument), [read_case_1] returns a matrix with
    the rows A and B and one column per week, labelled by the ISO date of
    the Sunday that closes the week: 2020-01-05 and 2020-01-12.  Row A
    holds 3 for the week closing on 2020-01-12; row B holds 2 for the week
    closing on 2020-01-05 and an explicit 0 for the next one. *)
Theorem C8_weekly_example :
  let df := [row "A" (ISO 2020 1 1) 5; row "A" (ISO 2020 1 8) 3;
             row "B" (ISO 2020 1 3) 2] in
  exists out,
    read_case_1 df "out.csv" "W" false quiet = (inr out, quiet)
    /\ columns out = [ISO 2020 1 5; ISO 2020 1 12]
    /\ index out = ["A"%string; "B"%string]
    /\ cells_at out "A" (ISO 2020 1 12) = [Some 3]
    /\ cells_at out "B" (ISO 2020 1 5) = [Some 2]
    /\ cells_at out "B" (ISO 2020 1 12) = [Some 0].
Proof.
  eexists. split; [vm_compute; reflexivity|].
  repeat split; vm_compute; reflexivity.
Qed.

(** C8, the claim as stated fails: the matrix returned is not the one
    the example gives. *)
Lemma C8_counterexample :
  let df := [row "A" (ISO 2020 1 1) 5; row "A" (ISO 2020 1 8) 3;
             row "B" (ISO 2020 1 3) 2] in
  fst (read_case_1 df "out.csv" "W" false quiet)
  <> inr {| columns := [ISO 2020 1 1; ISO 2020 1 8];
            rows := [("A"%string, [Some 5; Some 3]);
                     ("B"%string, [Some 2; None])] |}.
Proof. vm_compute. intros H. discriminate H. Qed.

(** C4 (as amended).  After every merge, and so in the matrix returned,
    the columns are in non-decreasing order of their labels.  The order
    is not strict: a period that straddles two windows gives two columns
    with the same label. *)
Theorem C4_columns_nondecreasing :
  forall o df path save w,
    (forall n out w',
        running_matrix n df path (alias o) save w = (inr out, w') ->
        StronglySorted Z.le (columns out))
    /\ (forall out w',
          read_case_1 df path (alias o) save w = (inr out, w') ->
          StronglySorted Z.le (columns out)).
Proof.
  intros o df path save w.
  assert (H : forall n out w',
             running_matrix n df path (alias o) save w = (inr out, w') ->
             StronglySorted Z.le (columns out)).
  { intros n out w' E. apply running_inr in E as (-> & _ & _).
    rewrite merged_columns. apply windows_labels_sorted. }
  split; [exact H|]. intros out w'. rewrite read_case_1_running. apply H.
Qed.

Lemma C4_witness :
  let df := [row "A" (ISO 2020 1 1) 1; row "A" (ISO 2020 1 14) 2;
             row "B" (ISO 2020 1 15) 3; row "A" (ISO 2020 1 28) 4;
             row "A" (ISO 2020 2 11) 5] in
  let out := {| columns := [ISO 2020 1 19; ISO 2020 1 19];
                rows := [("A"%string, [Some 2; Some 0]);
                         ("B"%string, [Some 0; Some 3])] |} in
  running_matrix 1 df "out.csv" "W" false quiet = (inr out, quiet)
  /\ StronglySorted Z.le (columns out).
Proof.
  intros df out.
  assert (H : running_matrix 1 df "out.csv" "W" false quiet = (inr out, quiet))
    by (vm_compute; reflexivity).
  split; [exact H|].
  exact (proj1 (C4_columns_nondecreasing Week_SUN df "out.csv" false quiet)
           1%nat out quiet H).
Defined.

(** C4, the claim as stated fails: February 2020 is produced by the
    first window (from the row of 2020-02-28) and by the second (from the
    row of 2020-02-29), so the columns of the result are not strictly
    increasing. *)
Lemma C4_counterexample :
  let df := [row "A" (ISO 2020 1 1) 1; row "A" (ISO 2020 2 28) 2;
             row "A" (ISO 2020 2 29) 3; row "A" (ISO 2020 4 28) 4] in
  exists out,
    read_case_1 df "out.csv" "M" false quiet = (inr out, quiet)
    /\ columns out = [ISO 2020 2 29; ISO 2020 2 29]
    /\ ~ StronglySorted Z.lt (columns out).
Proof.
  eexists. split; [vm_compute; reflexivity|].
  split; [vm_compute; reflexivity|].
  cbn [columns]. intros H. inversion H as [|a l _ Hf]; subst.
  inversion Hf as [|? ? Hlt _]; subst. vm_compute in Hlt. discriminate.
Qed.

(** C6 (as amended).  While [Item] is categorical (as it is for every
    file of at most [10 ** 6] rows), every item of the file has a row in
    the matrix returned and no cell of it is absent: in each column the
    row holds the sum of its records in the window and the period of
    that column, hence an explicit zero wherever it has no record, in
    the window of its records and in every other.  Absent cells arise
    only when [Item] is a column of plain strings (a file read in chunks
    that differ in their items): a series with rows in one window only
    then has absent cells in the columns of every other window, and sums
    (zeros included) in the columns of its own.  The sums are those of
    the code while [float32] adds the quantities exactly. *)
Theorem C6_sparse_series :
  forall o df path save w out w' i,
    read_case_1 df path (alias o) save w = (inr out, w') ->
    exact32 df ->
    let cols := fun win => columns (window_matrix o df win) in
    let sums := fun win =>
      map (fun lbl =>
             Some (sum_y (in_period o lbl
                            (of_series i (between df (fst win) (snd win))))))
          (cols win) in
    columns out = flat_map cols (windows o df)
    /\ (forall cats,
          Item_categories df = Some cats -> In i cats ->
          loc out i = Some (flat_map sums (windows o df)))
    /\ (forall pre win post,
          Item_categories df = None ->
          windows o df = pre ++ win :: post ->
          has_series i (between df (fst win) (snd win)) = true ->
          (forall win', In win' (pre ++ post) ->
                        has_series i (between df (fst win') (snd win')) = false) ->
          loc out i
          = Some (repeat None (List.length (flat_map cols pre))
                  ++ sums win
                  ++ repeat None (List.length (flat_map cols post)))).
Proof.
  intros o df path save w out w' i E _ cols sums.
  pose proof (read_case_1_inr_rows df path o save w out w' E) as [Hdf _].
  apply read_case_1_inr in E. subst out.
  split; [apply merged_columns|]. split.
  - intros cats Hc Hi.
    assert (Hr : forall win, has_row df i (between df (fst win) (snd win)) = true).
    { intros win. unfold has_row. rewrite Hc. now apply existsb_eqb_in. }
    pose proof (windows_not_nil o df Hdf) as Hw.
    destruct (windows o df) as [|w0 ws] eqn:Ew; [contradiction|].
    rewrite (loc_merged o df i (w0 :: ws) w0) by (try apply Hr; now left).
    f_equal. apply window_rows_present. intros; apply Hr.
  - intros pre win post Hc Hw Hin Hout. rewrite Hw.
    assert (Hr : forall win', has_row df i (between df (fst win') (snd win'))
                              = has_series i (between df (fst win') (snd win'))).
    { intros win'. unfold has_row. now rewrite Hc. }
    rewrite (loc_merged o df i (pre ++ win :: post) win)
      by (try apply in_or_app; try (rewrite Hr; exact Hin); right; now left).
    f_equal. rewrite flat_map_app. cbn [flat_map].
    rewrite !window_rows_absent
      by (intros w0 H0; rewrite Hr; apply Hout, in_or_app; tauto).
    unfold window_row at 1. now rewrite Hr, Hin.
Qed.

Lemma C6_witness :
  let df := [row "A" (ISO 2020 1 1) 1; row "B" (ISO 2020 1 3) 2;
             row "A" (ISO 2020 1 8) 3; row "A" (ISO 2020 1 20) 5;
             row "A" (ISO 2020 1 30) 6; row "A" (ISO 2020 2 11) 4] in
  let out := {| columns := [ISO 2020 1 5; ISO 2020 1 12; ISO 2020 1 26;
                            ISO 2020 2 2];
                rows := [("A"%string, [Some 0; Some 3; Some 5; Some 6]);
                         ("B"%string, [Some 2; Some 0; Some 0; Some 0])] |} in
  read_case_1 df "out.csv" "W" false quiet = (inr out, quiet)
  /\ loc out "B" = Some [Some 2; Some 0; Some 0; Some 0].
Proof.
  intros df out.
  assert (E : read_case_1 df "out.csv" "W" false quiet = (inr out, quiet))
    by (vm_compute; reflexivity).
  split; [exact E|].
  refine (proj1 (proj2 (C6_sparse_series Week_SUN df "out.csv" false quiet out
                          quiet "B" E _))
            ["A"; "B"]%string _ _).
  - vm_compute. discriminate.
  - vm_compute. reflexivity.
  - right. left. reflexivity.
Defined.

(** C6, the claim as stated fails: series B has its only row in the
    first window, in the week closing on 2020-01-05; its cell for the week
    closing on 2020-01-12, a week in which it has no row, is the number 0
    and not an absent cell. *)
Lemma C6_counterexample :
  let df := [row "A" (ISO 2020 1 1) 5; row "A" (ISO 2020 1 8) 3;
             row "B" (ISO 2020 1 3) 2] in
  exists out,
    read_case_1 df "out.csv" "W" false quiet = (inr out, quiet)
    /\ windows Week_SUN df = [(ISO 2020 1 1, ISO 2020 1 15)]
    /\ in_period Week_SUN (ISO 2020 1 12) (of_series "B" df) = []
    /\ cells_at out "B" (ISO 2020 1 12) = [Some 0].
Proof.
  eexists. split; [vm_compute; reflexivity|].
  repeat split; vm_compute; reflexivity.
Qed.

(** C1, on a failing input.  The rows dated after the last full chunk
    are never read: here the row of 2020-01-21 lies on no window bound,
    yet the cells of the matrix returned sum to 2 while [y] sums to 6. *)
Theorem C1_conservation_fails_on_tail :
  let df := [row "A" (ISO 2020 1 1) 0; row "A" (ISO 2020 1 2) 2;
             row "A" (ISO 2020 1 21) 4] in
  exists out,
    read_case_1 df "out.csv" "W" false quiet = (inr out, quiet)
    /\ windows Week_SUN df = [(ISO 2020 1 1, ISO 2020 1 15)]
    /\ sum_cells out = 2
    /\ sum_y df = 6
    /\ sum_y (filter (fun r => negb (existsb (Z.eqb (date r))
                                       [ISO 2020 1 1; ISO 2020 1 14; ISO 2020 1 15]))
                     df) = 6.
Proof.
  eexists. split; [vm_compute; reflexivity|].
  repeat split; vm_compute; reflexivity.
Qed.

(** C2, on a failing input.  The windows do not cover the days from the
    earliest to the latest: the earliest day itself and every day after
    the last full chunk (here 2020-01-15 to 2020-01-21) lie in no window,
    and the rows dated on them are dropped: the one record of series B
    is lost and the row of B holds a 0. *)
Theorem C2_windows_miss_days :
  let df := [row "A" (ISO 2020 1 1) 1; row "A" (ISO 2020 1 2) 2;
             row "B" (ISO 2020 1 21) 4] in
  date_min df = Some (ISO 2020 1 1)
  /\ date_max df = Some (ISO 2020 1 21)
  /\ windows Week_SUN df = [(ISO 2020 1 1, ISO 2020 1 15)]
  /\ (forall d, d = ISO 2020 1 1 \/ ISO 2020 1 15 <= d <= ISO 2020 1 21 ->
                existsb (fun w => in_window w d) (windows Week_SUN df) = false)
  /\ read_case_1 df "out.csv" "W" false quiet
     = (inr {| columns := [ISO 2020 1 5];
               rows := [("A"%string, [Some 2]); ("B"%string, [Some 0])] |},
        quiet).
Proof.
  intros df. split; [vm_compute; reflexivity|].
  split; [vm_compute; reflexivity|].
  split; [vm_compute; reflexivity|].
  split; [|vm_compute; reflexivity].
  intros d Hd. apply not_true_is_false.
  rewrite (windows_cover Week_SUN df (ISO 2020 1 1) (ISO 2020 1 21) d)
    by (vm_compute; reflexivity).
  replace (loop_start (loop_fuel Week_SUN df) (chunk_days Week_SUN)
             (ISO 2020 1 21) (ISO 2020 1 1 + chunk_days Week_SUN - 1))
    with (ISO 2020 1 14) by (vm_compute; reflexivity).
  change (ISO 2020 1 1) with 18262 in *. change (ISO 2020 1 14) with 18275.
  change (ISO 2020 1 15) with 18276 in *. change (ISO 2020 1 21) with 18282 in *.
  lia.
Qed.


(* ================================================================= *)
(** ** Further properties of [read_case_1] *)

(** *** What the result depends on *)

Lemma while_loop_ext_windows df df' path freq save c dmax fuel s out w :
  (forall win, In win (loop_windows fuel c dmax s) ->
     pivot_table (Item_categories df) (map drop_rename (between df (fst win) (snd win)))
     = pivot_table (Item_categories df')
         (map drop_rename (between df' (fst win) (snd win)))) ->
  while_loop fuel df path freq save c dmax s out w
  = while_loop fuel df' path freq save c dmax s out w.
Proof.
  revert s out w. induction fuel as [|fuel IH]; intros s out w H; [reflexivity|].
  cbn [while_loop]. cbn [loop_windows] in H.
  destruct (s + c <? dmax); [|reflexivity].
  pose proof (H (s, s + c) (or_introl eq_refl)) as E. cbn [fst snd] in E.
  unfold pivot_resample. rewrite E. unfold bind.
  destruct (resample freq _ w) as [[e|t] w1]; [reflexivity|].
  destruct ((if save then to_csv _ path else ret tt) w1) as [[e|u] w2];
    [reflexivity|].
  apply IH. intros win Hw. apply H. now right.
Qed.

Lemma read_case_1_ext o df df' path save w :
  date_min df = date_min df' -> date_max df = date_max df' ->
  (forall win, In win (windows o df) ->
     pivot_table (Item_categories df) (map drop_rename (between df (fst win) (snd win)))
     = pivot_table (Item_categories df')
         (map drop_rename (between df' (fst win) (snd win)))) ->
  read_case_1 df path (alias o) save w = read_case_1 df' path (alias o) save w.
Proof.
  unfold windows, windows_upto, loop_fuel, read_case_1, bind.
  intros <- <-. rewrite chunk_size_of_alias.
  destruct (date_min df) as [m|], (date_max df) as [dmax|]; try reflexivity.
  intros H.
  pose proof (H _ (or_introl eq_refl)) as E. cbn [fst snd] in E.
  unfold pivot_resample. rewrite E.
  destruct (resample (alias o) _ w) as [[e|t] w1]; [reflexivity|].
  rewrite (while_loop_ext_windows df df').
  - reflexivity.
  - intros win Hw. apply H. now right.
Qed.

Lemma read_case_1_unsupported df path frequency save w :
  to_offset frequency = None ->
  read_case_1 df path frequency save w = (inl (ValueError unsupported), w).
Proof.
  unfold to_offset, read_case_1, bind, chunk_size_of.
  destruct (frequency =? "W")%string; [discriminate|].
  destruct (frequency =? "M")%string; [discriminate | reflexivity].
Qed.

Lemma to_offset_some frequency o : to_offset frequency = Some o -> frequency = alias o.
Proof.
  unfold to_offset.
  destruct (String.eqb_spec frequency "W") as [->|_]; [now intros [= <-]|].
  destruct (String.eqb_spec frequency "M") as [->|_]; [now intros [= <-]|].
  discriminate.
Qed.

(** *** Order of the rows *)

Lemma filter_perm {A} (p : A -> bool) l l' :
  Permutation l l' -> Permutation (filter p l) (filter p l').
Proof.
  induction 1 as [|a l l' H IH|a b l|l1 l2 l3 H1 IH1 H2 IH2]; simpl.
  - constructor.
  - destruct (p a); [now constructor | exact IH].
  - destruct (p a), (p b); try reflexivity. constructor.
  - now transitivity (filter p l2).
Qed.


Section SortedExt.
Context {A : Type} (cmp : A -> A -> comparison) (lt : A -> A -> Prop).
Hypothesis cmp_spec : forall x x', CompSpec eq lt x x' (cmp x x').
Hypothesis lt_strict : StrictOrder lt.

(** A strictly sorted list is determined by its elements. *)
Lemma sorted_ext l l' :
  StronglySorted lt l -> StronglySorted lt l' ->
  (forall x, In x l <-> In x l') -> l = l'.
Proof.
  intros Hl. revert l'. induction Hl as [|a l Hs IH Ha]; intros l' Hl' E.
  - destruct l' as [|b l']; [reflexivity|].
    exfalso. apply (proj2 (E b)). now left.
  - destruct Hl' as [|b l' Hs' Hb].
    + exfalso. apply (proj1 (E a)). now left.
    + rewrite Forall_forall in Ha, Hb.
      assert (a = b).
      { destruct (proj1 (E a) (or_introl eq_refl)) as [->|Hab]; [reflexivity|].
        destruct (proj2 (E b) (or_introl eq_refl)) as [->|Hba]; [reflexivity|].
        assert (Haa : lt a a) by (transitivity b; auto).
        now apply (irreflexivity (R := lt)) in Haa. }
      subst b. f_equal. apply IH; [exact Hs'|].
      intros x. split; intros Hx.
      * destruct (proj1 (E x) (or_intror Hx)) as [<-|H]; [|exact H].
        apply Ha in Hx. now apply (irreflexivity (R := lt)) in Hx.
      * destruct (proj2 (E x) (or_intror Hx)) as [<-|H]; [|exact H].
        apply Hb in Hx. now apply (irreflexivity (R := lt)) in Hx.
Qed.

Lemma sort_unique_perm l l' :
  Permutation l l' -> sort_unique cmp l = sort_unique cmp l'.
Proof.
  intros H. apply sorted_ext.
  - apply (sort_unique_sorted cmp lt cmp_spec lt_strict).
  - apply (sort_unique_sorted cmp lt cmp_spec lt_strict).
  - intros x. rewrite !(sort_unique_in cmp lt cmp_spec).
    split; apply Permutation_in; [exact H | now apply Permutation_sym].
Qed.
End SortedExt.







(** X2.  The columns [DC] and [Shop] play no part: two inputs whose rows
    agree on [Item], [date] and [y] give the same result, so the rows of
    one item are added up across shops and distribution centres. *)
Theorem X2_DC_and_Shop_are_ignored :
  forall df df' path frequency save w,
    map drop_rename df = map drop_rename df' ->
    read_case_1 df path frequency save w = read_case_1 df' path frequency save w.
Proof.
  intros df df' path frequency save w H.
  assert (Hd : map date df = map date df').
  { apply (f_equal (map Long.date)) in H. now rewrite !map_map in H. }
  assert (Hb : forall s e,
             map drop_rename (between df s e) = map drop_rename (between df' s e)).
  { intros s e. unfold between.
    rewrite <- !(filter_drop_rename
                   (fun r => (Long.date r <? e) && (Long.date r >? s))).
    now rewrite H. }
  destruct (to_offset frequency) as [o|] eqn:E.
  - apply to_offset_some in E. subst frequency. apply read_case_1_ext.
    + destruct df as [|r df], df' as [|r' df']; try discriminate; [reflexivity|].
      simpl in *. now inversion Hd.
    + destruct df as [|r df], df' as [|r' df']; try discriminate; [reflexivity|].
      simpl in *. now inversion Hd.
    + intros win _. rewrite Hb. f_equal. apply Item_categories_ext.
      apply (f_equal (map Long.unique_id)) in H. now rewrite !map_map in H.
  - now rewrite !read_case_1_unsupported.
Qed.

Lemma X2_witness :
  let df := [mkRow "DC1" "S1" "A" (ISO 2020 1 1) 5;
             mkRow "DC1" "S1" "A" (ISO 2020 1 9) 2;
             mkRow "DC2" "S7" "A" (ISO 2020 1 9) 3;
             mkRow "DC2" "S7" "B" (ISO 2020 1 20) 4] in
  let df' := [row "A" (ISO 2020 1 1) 5; row "A" (ISO 2020 1 9) 2;
              row "A" (ISO 2020 1 9) 3; row "B" (ISO 2020 1 20) 4] in
  map drop_rename df = map drop_rename df'
  /\ read_case_1 df "out.csv" "W" false quiet
     = read_case_1 df' "out.csv" "W" false quiet.
Proof.
  intros df df'.
  assert (H : map drop_rename df = map drop_rename df') by reflexivity.
  split; [exact H|].
  exact (X2_DC_and_Shop_are_ignored df df' "out.csv" "W" false quiet H).
Defined.

(** *** The rows that are read *)

Lemma loop_fuel_ext o df df' :
  date_min df = date_min df' -> date_max df = date_max df' ->
  loop_fuel o df = loop_fuel o df'.
Proof. unfold loop_fuel. now intros -> ->. Qed.

Lemma between_filter (p : Row -> bool) df s e :
  (forall r, In r df -> in_window (s, e) (date r) = true -> p r = true) ->
  between df s e = between (filter p df) s e.
Proof.
  unfold between, in_window. cbn [fst snd].
  induction df as [|r df IH]; intros H; [reflexivity|]. simpl.
  destruct ((date r <? e) && (date r >? s)) eqn:E.
  - rewrite (H r (or_introl eq_refl) E). simpl. rewrite E. f_equal.
    apply IH. intros r' Hr'. apply H. now right.
  - destruct (p r); simpl; rewrite ?E; apply IH; intros r' Hr'; apply H; now right.
Qed.

Lemma rows_read_spec o df m dmax r :
  date_min df = Some m -> date_max df = Some dmax ->
  In r (rows_read o df)
  <-> In r df /\ existsb (fun w => in_window w (date r)) (windows o df) = true.
Proof.
  intros Hm Hx. unfold rows_read. rewrite Hm, Hx, filter_In.
  rewrite (windows_cover o df m dmax (date r) Hm Hx).
  rewrite andb_true_iff, Z.ltb_lt, Z.leb_le. tauto.
Qed.

Lemma windows_nil o df : date_min df = None -> windows o df = [].
Proof. unfold windows, windows_upto. now intros ->. Qed.

Lemma date_min_max df : date_min df = None <-> date_max df = None.
Proof. destruct df; simpl; split; congruence. Qed.

(** X3.  The result depends on [df] only through its earliest day, its
    latest day, the dtype of [Item] and the rows it reads, those dated
    after the earliest day and no later than the last value of
    [start_date]: the quantities and the dates of the other rows, those
    of the earliest day and those after the last full chunk, can be
    changed at will. *)
Theorem X3_only_the_rows_read_matter :
  forall o df df' path save w,
    date_min df = date_min df' -> date_max df = date_max df' ->
    Item_categories df = Item_categories df' ->
    rows_read o df = rows_read o df' ->
    read_case_1 df path (alias o) save w = read_case_1 df' path (alias o) save w.
Proof.
  intros o df df' path save w Hm Hx Hcat Hr.
  apply read_case_1_ext; [exact Hm | exact Hx |].
  intros win Hw. rewrite Hcat. f_equal. f_equal.
  destruct (date_min df) as [m|] eqn:Em;
    [|rewrite (windows_nil o df Em) in Hw; destruct Hw].
  destruct (date_max df) as [dmax|] eqn:Ex;
    [|apply date_min_max in Ex; congruence].
  assert (Hin : forall d, in_window win d = true ->
                          existsb (fun w0 => in_window w0 d) (windows o df) = true).
  { intros d Hd. apply existsb_exists. eauto. }
  set (p := fun r => (m <? date r)
                     && (date r <=? loop_start (loop_fuel o df) (chunk_days o) dmax
                                      (m + chunk_days o - 1))).
  assert (Hp : forall d, in_window win d = true ->
                         (m <? d) && (d <=? loop_start (loop_fuel o df) (chunk_days o)
                                            dmax (m + chunk_days o - 1)) = true).
  { intros d Hd. apply Hin in Hd.
    apply (windows_cover o df m dmax d Em Ex) in Hd.
    rewrite andb_true_iff, Z.ltb_lt, Z.leb_le. exact Hd. }
  destruct win as [s e]. cbn [fst snd].
  rewrite (between_filter p df s e), (between_filter p df' s e);
    try (intros r _ Hd; apply (Hp _ Hd)).
  unfold rows_read in Hr.
  rewrite <- Hm, <- Hx, Em, Ex, <- (loop_fuel_ext o df df') in Hr
    by congruence.
  fold p in Hr. now rewrite Hr.
Qed.

Lemma X3_witness :
  let df := [row "A" (ISO 2020 1 1) 5; row "B" (ISO 2020 1 9) 2;
             row "A" (ISO 2020 1 20) 3; row "A" (ISO 2020 1 29) 4] in
  let df' := [row "B" (ISO 2020 1 1) 7; row "B" (ISO 2020 1 9) 2;
              row "A" (ISO 2020 1 20) 3; row "A" (ISO 2020 1 28) 9;
              row "B" (ISO 2020 1 29) 1] in
  rows_read Week_SUN df = rows_read Week_SUN df'
  /\ read_case_1 df "out.csv" "W" true quiet
     = read_case_1 df' "out.csv" "W" true quiet.
Proof.
  intros df df'.
  assert (H : rows_read Week_SUN df = rows_read Week_SUN df')
    by (vm_compute; reflexivity).
  split; [exact H|].
  refine (X3_only_the_rows_read_matter Week_SUN df df' "out.csv" true quiet _ _ _ H);
    vm_compute; reflexivity.
Defined.



(** *** Shape of the matrix *)

Lemma index_fold_NoDup ms m :
  NoDup (index m) -> Forall (fun x => NoDup (index x)) ms ->
  NoDup (index (fold_left concat_axis1 ms m)).
Proof.
  revert m. induction ms as [|x ms IH]; intros m Hm Hms; [exact Hm|].
  inversion Hms; subst. simpl. apply IH; [|assumption].
  rewrite index_concat. now apply union_index_NoDup.
Qed.

Lemma index_merge_all_NoDup ms :
  Forall (fun x => NoDup (index x)) ms -> NoDup (index (merge_all ms)).
Proof.
  destruct ms as [|m ms]; intros H; [constructor|].
  inversion H; subst. now apply index_fold_NoDup.
Qed.

Lemma lookup_row_in i l r : lookup_row i l = Some r -> In (i, r) l.
Proof.
  induction l as [|[j r'] l IH]; simpl; [discriminate|].
  destruct (String.eqb_spec i j) as [->|_].
  - intros [= ->]. now left.
  - intros H. right. auto.
Qed.

Lemma reindex_row_length t i :
  rectangular t -> List.length (reindex_row t i) = List.length (columns t).
Proof.
  intros H. unfold reindex_row, loc.
  destruct (lookup_row i (rows t)) as [r|] eqn:E; [|apply repeat_length].
  apply lookup_row_in in E. unfold rectangular in H.
  rewrite Forall_forall in H. apply (H _ E).
Qed.

Lemma rectangular_concat a b :
  rectangular a -> rectangular b -> rectangular (concat_axis1 a b).
Proof.
  intros Ha Hb. unfold rectangular, concat_axis1. cbn [rows columns].
  apply Forall_forall. intros r Hr. apply in_map_iff in Hr as (i & <- & _).
  cbn [snd]. now rewrite !List.length_app, !reindex_row_length.
Qed.

Lemma rectangular_fold ms m :
  rectangular m -> Forall rectangular ms ->
  rectangular (fold_left concat_axis1 ms m).
Proof.
  revert m. induction ms as [|x ms IH]; intros m Hm Hms; [exact Hm|].
  inversion Hms; subst. simpl. apply IH; [|assumption].
  now apply rectangular_concat.
Qed.

Lemma rectangular_window o df w : rectangular (window_matrix o df w).
Proof.
  unfold rectangular, window_matrix, resample_sum. cbn [rows columns].
  apply Forall_forall. intros r Hr. apply in_map_iff in Hr as (r0 & <- & _).
  cbn [snd]. apply length_map.
Qed.

Lemma union_index_same a : union_index a a = a.
Proof.
  unfold union_index.
  assert (H : forall l, incl l a ->
                        filter (fun i => negb (existsb (String.eqb i) a)) l = []).
  { induction l as [|x l IH]; intros Hl; [reflexivity|]. simpl.
    rewrite (proj2 (existsb_eqb_in x a)) by (apply Hl; now left). simpl.
    apply IH. intros y Hy. apply Hl. now right. }
  rewrite H by apply incl_refl. apply app_nil_r.
Qed.

Lemma index_fold_same ms m :
  Forall (fun x => index x = index m) ms ->
  index (fold_left concat_axis1 ms m) = index m.
Proof.
  revert m. induction ms as [|x ms IH]; intros m H; [reflexivity|].
  inversion H as [|? ? Hx Hr]; subst. simpl.
  assert (E : index (concat_axis1 m x) = index m)
    by (rewrite index_concat, Hx; apply union_index_same).
  rewrite IH; [exact E|]. now rewrite E.
Qed.

Lemma index_window_some o df w cats :
  Item_categories df = Some cats -> index (window_matrix o df w) = cats.
Proof.
  intros H. unfold window_matrix. rewrite index_resample, H.
  apply pivot_index_some.
Qed.

(** X5.  The matrix returned is a well-formed table: every row has one
    cell per column and no series has two rows.  While [Item] is
    categorical its rows are the categories, in their order: every item
    of the file, whether a row of it is read or not.  When [Item] is a
    column of plain strings, a series has a row exactly when one of its
    rows in [df] is read. *)
Theorem X5_shape_of_the_matrix :
  forall o df path save w out w',
    read_case_1 df path (alias o) save w = (inr out, w') ->
    rectangular out
    /\ NoDup (index out)
    /\ (forall cats, Item_categories df = Some cats -> index out = cats)
    /\ (Item_categories df = None ->
        forall i, In i (index out) <-> In i (map Item (rows_read o df))).
Proof.
  intros o df path save w out w' E.
  pose proof (read_case_1_inr_rows df path o save w out w' E) as [Hdf _].
  apply read_case_1_inr in E. subst out.
  split; [|split; [|split]].
  - destruct (windows o df) as [|w0 ws]; [constructor|]. cbn [map merge_all].
    apply rectangular_fold; [apply rectangular_window|].
    apply Forall_forall. intros x Hx. apply in_map_iff in Hx as (w1 & <- & _).
    apply rectangular_window.
  - apply index_merge_all_NoDup, Forall_forall. intros x Hx.
    apply in_map_iff in Hx as (w1 & <- & _). apply window_index_NoDup.
  - intros cats Hc. pose proof (windows_not_nil o df Hdf) as Hw.
    destruct (windows o df) as [|w0 ws]; [contradiction|]. cbn [map merge_all].
    rewrite index_fold_same; [now apply index_window_some|].
    apply Forall_forall. intros x Hx. apply in_map_iff in Hx as (w1 & <- & _).
    now rewrite !(index_window_some o df _ cats Hc).
  - intros Hc i. rewrite index_merge_all.
    assert (Hr : forall win, has_row df i (between df (fst win) (snd win))
                             = has_series i (between df (fst win) (snd win))).
    { intros win. unfold has_row. now rewrite Hc. }
    destruct (date_min df) as [m|] eqn:Em.
    + destruct (date_max df) as [dmax|] eqn:Ex;
        [|apply date_min_max in Ex; congruence].
      split.
      * intros (x & Hx & Hi). apply in_map_iff in Hx as (win & <- & Hw).
        apply index_window in Hi. rewrite Hr in Hi.
        apply has_series_in, in_map_iff in Hi as (r & <- & Hi).
        apply in_map. apply (rows_read_spec o df m dmax r Em Ex).
        apply filter_In in Hi as [Hi Hd]. split; [exact Hi|].
        apply existsb_exists. exists win. split; [exact Hw | exact Hd].
      * intros Hi. apply in_map_iff in Hi as (r & <- & Hi).
        apply (rows_read_spec o df m dmax r Em Ex) in Hi as [Hi Hd].
        apply existsb_exists in Hd as (win & Hw & Hd).
        exists (window_matrix o df win). split; [now apply in_map|].
        apply index_window. rewrite Hr.
        apply has_series_in, in_map, filter_In. split; assumption.
    + rewrite (windows_nil o df Em). unfold rows_read. rewrite Em. simpl.
      split; [intros (x & [] & _) | intros []].
Qed.

Lemma X5_witness :
  let df := [row "A" (ISO 2020 1 1) 5; row "B" (ISO 2020 1 9) 2;
             row "A" (ISO 2020 1 9) 3; row "A" (ISO 2020 1 20) 4;
             row "C" (ISO 2020 1 29) 1] in
  let out := {| columns := [ISO 2020 1 12; ISO 2020 1 26];
                rows := [("A"%string, [Some 3; Some 4]);
                         ("B"%string, [Some 2; Some 0]);
                         ("C"%string, [Some 0; Some 0])] |} in
  read_case_1 df "out.csv" "W" false quiet = (inr out, quiet)
  /\ rectangular out /\ NoDup (index out)
  /\ index out = ["A"; "B"; "C"]%string.
Proof.
  intros df out.
  assert (H : read_case_1 df "out.csv" "W" false quiet = (inr out, quiet))
    by (vm_compute; reflexivity).
  split; [exact H|].
  destruct (X5_shape_of_the_matrix Week_SUN df "out.csv" false quiet out quiet H)
    as (H1 & H2 & H3 & _).
  split; [exact H1|]. split; [exact H2|].
  apply H3. vm_compute. reflexivity.
Defined.

(** *** The windows, in closed form *)

Lemma loop_windows_shape c dmax fuel s :
  loop_windows fuel c dmax s
  = map (fun k => (s + Z.of_nat k * (c - 1), s + Z.of_nat k * (c - 1) + c))
        (seq 0 (List.length (loop_windows fuel c dmax s))).
Proof.
  revert s. induction fuel as [|fuel IH]; intros s; [reflexivity|].
  cbn [loop_windows]. destruct (s + c <? dmax); [|reflexivity].
  cbn [List.length seq map]. f_equal; [f_equal; lia|].
  rewrite (IH (s + c - 1)) at 1. rewrite <- seq_shift, map_map.
  apply map_ext. intros k. f_equal; lia.
Qed.

Lemma loop_start_shape c dmax fuel s :
  loop_start fuel c dmax s
  = s + Z.of_nat (List.length (loop_windows fuel c dmax s)) * (c - 1).
Proof.
  revert s. induction fuel as [|fuel IH]; intros s;
    cbn [loop_start loop_windows]; [cbn; lia|].
  destruct (s + c <? dmax); cbn [List.length]; [|lia].
  rewrite IH, Nat2Z.inj_succ. lia.
Qed.

Lemma loop_windows_turns c dmax fuel s k :
  (k < List.length (loop_windows fuel c dmax s))%nat ->
  s + Z.of_nat k * (c - 1) + c < dmax.
Proof.
  revert s k. induction fuel as [|fuel IH]; intros s k; cbn [loop_windows].
  - cbn. lia.
  - destruct (s + c <? dmax) eqn:E; [|cbn; lia].
    cbn [List.length]. destruct k as [|k]; [lia|]. intros Hk.
    specialize (IH (s + c - 1) k ltac:(lia)). lia.
Qed.

Lemma windows_shape o df m :
  date_min df = Some m ->
  windows o df
  = map (fun k => (m + Z.of_nat k * (chunk_days o - 1),
                   m + Z.of_nat k * (chunk_days o - 1) + chunk_days o))
        (seq 0 (S (turns o df))).
Proof.
  intros Hm. unfold turns, windows, windows_upto. rewrite Hm.
  destruct (date_max df) as [dmax|] eqn:Ex;
    [|apply date_min_max in Ex; congruence].
  cbn [List.length Nat.pred seq map]. f_equal; [f_equal; lia|].
  rewrite loop_windows_shape at 1. rewrite <- seq_shift, map_map.
  apply map_ext. intros k. f_equal; lia.
Qed.

Lemma turns_spec o df m dmax :
  date_min df = Some m -> date_max df = Some dmax ->
  let c := chunk_days o in
  let n := turns o df in
  (forall k, (k < n)%nat -> m + (Z.of_nat k + 1) * (c - 1) + c < dmax)
  /\ dmax <= m + (Z.of_nat n + 1) * (c - 1) + c.
Proof.
  intros Hm Hx c n. subst n. unfold turns, windows, windows_upto.
  rewrite Hm, Hx. cbn [List.length Nat.pred]. fold c.
  pose proof (chunk_days_gt o) as Hc. fold c in Hc.
  pose proof (read_case_1_fuel_enough o df m dmax Hm Hx) as Hexit. fold c in Hexit.
  rewrite loop_start_shape in Hexit.
  set (ws := loop_windows (loop_fuel o df) c dmax (m + c - 1)) in *.
  split; [|lia].
  intros k Hk. pose proof (loop_windows_turns c dmax _ _ k Hk). lia.
Qed.

Lemma chunks_nonempty_spec ws df :
  chunks_nonempty ws df = true ->
  forall w, In w ws -> between df (fst w) (snd w) <> [].
Proof.
  unfold chunks_nonempty. rewrite forallb_forall. intros H w Hw E.
  specialize (H w Hw). rewrite E in H. discriminate.
Qed.

(** X6.  The matrix returned, in closed form.  It is the merge of the
    matrices of the windows number 0 to [n], where window number [k]
    excludes its two bounds [min + k * (chunk_size - 1)] and that day
    plus [chunk_size] (so it holds [chunk_size - 1] days, 13 for ["W"]
    and 58 for ["M"], and its last day is the bound that the next window
    excludes), and
    where [n] is the least number for which
    [min + (n + 1) * (chunk_size - 1) + chunk_size] reaches the latest
    day.  Each of these windows held a row: [read_case_1] returns on no
    other input.  (The cells are those of the code while [float32] adds
    the quantities exactly.) *)
Theorem X6_windows_closed_form :
  forall o df path save w out w' m dmax,
    read_case_1 df path (alias o) save w = (inr out, w') ->
    exact32 df ->
    date_min df = Some m -> date_max df = Some dmax ->
    let c := chunk_days o in
    let window := fun k => (m + Z.of_nat k * (c - 1),
                            m + Z.of_nat k * (c - 1) + c) in
    exists n,
      (forall k, (k < n)%nat -> m + (Z.of_nat k + 1) * (c - 1) + c < dmax)
      /\ dmax <= m + (Z.of_nat n + 1) * (c - 1) + c
      /\ out = merge_all (map (fun k => window_matrix o df (window k))
                              (seq 0 (S n)))
      /\ forall k, (k <= n)%nat ->
                   between df (fst (window k)) (snd (window k)) <> [].
Proof.
  intros o df path save w out w' m dmax E _ Hm Hx c window.
  exists (turns o df).
  destruct (turns_spec o df m dmax Hm Hx) as [H1 H2].
  split; [exact H1|]. split; [exact H2|].
  pose proof (read_case_1_inr_rows df path o save w out w' E) as [_ Hne].
  apply read_case_1_inr in E. subst out.
  rewrite (windows_shape o df m Hm) in *. fold c in Hne |- *. fold window in Hne |- *.
  split; [now rewrite map_map|].
  intros k Hk. apply (chunks_nonempty_spec _ _ Hne (window k)).
  apply in_map, in_seq. lia.
Qed.

Lemma X6_witness :
  let df := [row "A" (ISO 2020 1 1) 5; row "B" (ISO 2020 1 9) 2;
             row "B" (ISO 2020 1 20) 1; row "A" (ISO 2020 2 3) 3;
             row "A" (ISO 2020 2 20) 4] in
  let out := {| columns := [ISO 2020 1 12; ISO 2020 1 26; ISO 2020 2 9];
                rows := [("A"%string, [Some 0; Some 0; Some 3]);
                         ("B"%string, [Some 2; Some 1; Some 0])] |} in
  read_case_1 df "out.csv" "W" false quiet = (inr out, quiet)
  /\ exists n,
      ISO 2020 2 20 <= ISO 2020 1 1 + (Z.of_nat n + 1) * (14 - 1) + 14
      /\ out = merge_all
                 (map (fun k => window_matrix Week_SUN df
                                  (ISO 2020 1 1 + Z.of_nat k * (14 - 1),
                                   ISO 2020 1 1 + Z.of_nat k * (14 - 1) + 14))
                      (seq 0 (S n))).
Proof.
  intros df out.
  assert (E : read_case_1 df "out.csv" "W" false quiet = (inr out, quiet))
    by (vm_compute; reflexivity).
  split; [exact E|].
  assert (Hx : exact32 df) by (vm_compute; discriminate).
  destruct (X6_windows_closed_form Week_SUN df "out.csv" false quiet out quiet
              (ISO 2020 1 1) (ISO 2020 2 20) E Hx eq_refl eq_refl)
    as (n & _ & H2 & H3 & _).
  exists n. split; [exact H2 | exact H3].
Defined.



(** *** The loop *)

Lemma while_loop_inr_writes df path o c dmax fuel s out w s' out' w' :
  while_loop fuel df path (alias o) true c dmax s out w = (inr (s', out'), w') ->
  List.length (disk w')
  = (List.length (loop_windows fuel c dmax s) + List.length (disk w))%nat.
Proof.
  revert s out w. induction fuel as [|fuel IH]; intros s out w H.
  - cbn in H. unfold ret in H. inversion H. reflexivity.
  - rewrite while_loop_turn in H. cbn [loop_windows].
    destruct (s + c <? dmax); [|inversion H; reflexivity].
    destruct (between df s (s + c)); [discriminate|].
    cbv zeta in H. unfold to_csv in H.
    destruct (faults w) as [|[|] fs]; [|discriminate|];
      apply IH in H; rewrite H; cbn [disk List.length]; lia.
Qed.

(** X8.  The loop stops, and when.  A loop that returns has made the
    least number [n] of turns for which the chunk of [start_date] ends on
    or after the latest day: every turn made started from a [start_date]
    whose chunk ended before the latest day, each turn moved [start_date]
    by [chunk_size - 1] days, and at the exit the chunk of [start_date]
    ends on or after the latest day (the loop stops on its own test, and
    that last chunk is not read).  The running matrix has been merged
    with the matrices of the [n] windows (their cells are those of the
    code while [float32] adds the quantities exactly), and with
    [temporary_save] it has been written [n] times. *)
Theorem X8_number_of_turns :
  forall o df path save dmax s out w s' out' w',
    let c := chunk_days o in
    while_loop (Z.to_nat (dmax - s)) df path (alias o) save c dmax s out w
    = (inr (s', out'), w') ->
    exact32 df ->
    exists n,
      s' = s + Z.of_nat n * (c - 1)
      /\ (forall k, (k < n)%nat -> s + Z.of_nat k * (c - 1) + c < dmax)
      /\ dmax <= s' + c
      /\ out' = fold_left concat_axis1
                  (map (fun k => window_matrix o df
                                   (s + Z.of_nat k * (c - 1),
                                    s + Z.of_nat k * (c - 1) + c))
                       (seq 0 n))
                  out
      /\ (save = true ->
          List.length (disk w') = (n + List.length (disk w))%nat).
Proof.
  intros o df path save dmax s out w s' out' w' c E _.
  pose proof (chunk_days_gt o) as Hc. fold c in Hc.
  exists (List.length (loop_windows (Z.to_nat (dmax - s)) c dmax s)).
  pose proof (while_loop_inr df path o c dmax _ save s out w s' out' w' E)
    as (Hs & Ho & _).
  split; [now rewrite Hs, loop_start_shape|].
  split; [intros k Hk; exact (loop_windows_turns c dmax _ s k Hk)|].
  split; [rewrite Hs; apply loop_start_exit; lia|].
  split.
  - rewrite Ho. rewrite loop_windows_shape at 1. now rewrite map_map.
  - intros ->. apply (while_loop_inr_writes _ _ _ _ _ _ _ _ _ _ _ _ E).
Qed.

Lemma X8_witness :
  let df := [row "A" (ISO 2020 1 1) 5; row "B" (ISO 2020 1 9) 2;
             row "B" (ISO 2020 1 20) 1; row "A" (ISO 2020 2 3) 3;
             row "A" (ISO 2020 2 20) 4] in
  let t := {| columns := [ISO 2020 1 12];
              rows := [("A"%string, [Some 0]); ("B"%string, [Some 2])] |} in
  let out := {| columns := [ISO 2020 1 12; ISO 2020 1 26; ISO 2020 2 9];
                rows := [("A"%string, [Some 0; Some 0; Some 3]);
                         ("B"%string, [Some 2; Some 1; Some 0])] |} in
  while_loop (Z.to_nat (ISO 2020 2 20 - ISO 2020 1 14)) df "out.csv" "W" false
    14 (ISO 2020 2 20) (ISO 2020 1 14) t quiet
  = (inr (ISO 2020 2 9, out), quiet)
  /\ exists n,
      ISO 2020 2 9 = ISO 2020 1 14 + Z.of_nat n * (14 - 1)
      /\ ISO 2020 2 20 <= ISO 2020 2 9 + 14.
Proof.
  intros df t out.
  assert (E : while_loop (Z.to_nat (ISO 2020 2 20 - ISO 2020 1 14)) df "out.csv"
                "W" false 14 (ISO 2020 2 20) (ISO 2020 1 14) t quiet
              = (inr (ISO 2020 2 9, out), quiet))
    by (vm_compute; reflexivity).
  split; [exact E|].
  assert (Hx : exact32 df) by (vm_compute; discriminate).
  destruct (X8_number_of_turns Week_SUN df "out.csv" false (ISO 2020 2 20)
              (ISO 2020 1 14) t quiet (ISO 2020 2 9) out quiet E Hx)
    as (n & H1 & _ & H3 & _).
  exists n. split; [exact H1 | exact H3].
Defined.

(** *** The files written *)

Lemma resample_world freq t w : snd (resample freq t w) = w.
Proof.
  unfold resample. destruct (to_offset freq); [|reflexivity].
  destruct (columns t); reflexivity.
Qed.

Lemma while_loop_disk df path freq save c dmax fuel s out w :
  exists ws,
    disk (snd (while_loop fuel df path freq save c dmax s out w)) = ws ++ disk w
    /\ Forall (fun e => fst e = path) ws.
Proof.
  revert s out w. induction fuel as [|fuel IH]; intros s out w.
  - exists []. split; [reflexivity | constructor].
  - cbn [while_loop]. destruct (s + c <? dmax);
      [|exists []; split; [reflexivity | constructor]].
    unfold bind, pivot_resample.
    pose proof (resample_world freq
                  (pivot_table (Item_categories df)
                     (map drop_rename (between df s (s + c)))) w) as Hw.
    destruct (resample freq _ w) as [[e|t] w1]; cbn [snd] in Hw; subst w1;
      [exists []; split; [reflexivity | constructor]|].
    destruct save.
    + unfold to_csv. destruct (faults w) as [|[|] fs].
      * destruct (IH (s + c - 1) (concat_axis1 out t)
                    {| disk := (path, concat_axis1 out t) :: disk w; faults := [] |})
          as (ws & E & F).
        exists (ws ++ [(path, concat_axis1 out t)]). split.
        -- rewrite E. cbn [disk]. now rewrite <- app_assoc.
        -- apply Forall_app. split; [exact F | now repeat constructor].
      * exists []. split; [reflexivity | constructor].
      * destruct (IH (s + c - 1) (concat_axis1 out t)
                    {| disk := (path, concat_axis1 out t) :: disk w; faults := fs |})
          as (ws & E & F).
        exists (ws ++ [(path, concat_axis1 out t)]). split.
        -- rewrite E. cbn [disk]. now rewrite <- app_assoc.
        -- apply Forall_app. split; [exact F | now repeat constructor].
    + apply IH.
Qed.

(** Without checkpoints the loop leaves the world alone, whether it
    returns or raises. *)
Lemma while_loop_nosave_world df path freq c dmax fuel s out w :
  snd (while_loop fuel df path freq false c dmax s out w) = w.
Proof.
  revert s out. induction fuel as [|fuel IH]; intros s out; [reflexivity|].
  cbn [while_loop]. destruct (s + c <? dmax); [|reflexivity].
  unfold bind, pivot_resample.
  pose proof (resample_world freq
                (pivot_table (Item_categories df)
                   (map drop_rename (between df s (s + c)))) w) as Hw.
  destruct (resample freq _ w) as [[e|t] w1]; cbn [snd] in Hw; subst w1;
    [reflexivity|].
  cbn. apply IH.
Qed.

Lemma read_file_app p path ws d :
  p <> path -> Forall (fun e : string * DataFrame => fst e = path) ws ->
  read_file p (ws ++ d) = read_file p d.
Proof.
  intros Hp. induction 1 as [|[q t] ws Hq Hws IH]; [reflexivity|].
  cbn [app read_file]. cbn [fst] in Hq. subst q.
  destruct (String.eqb_spec p path); [contradiction | exact IH].
Qed.

(** X9.  [read_case_1] writes to [write_filepath] and nowhere else: every
    other file holds after the call what it held before, whatever the
    frequency, whether writes fail or not.  Without [temporary_save] it
    writes nothing at all. *)
Theorem X9_only_write_filepath_is_written :
  forall df path frequency save w,
    (forall p, p <> path ->
               read_file p (disk (snd (read_case_1 df path frequency save w)))
               = read_file p (disk w))
    /\ (save = false -> snd (read_case_1 df path frequency save w) = w).
Proof.
  intros df path frequency save w.
  assert (H : exists ws,
             disk (snd (read_case_1 df path frequency save w)) = ws ++ disk w
             /\ Forall (fun e => fst e = path) ws
             /\ (save = false -> snd (read_case_1 df path frequency save w) = w)).
  { destruct (to_offset frequency) as [o|] eqn:E.
    - apply to_offset_some in E. subst frequency.
      unfold read_case_1, bind. rewrite chunk_size_of_alias.
      destruct (date_min df) as [m|], (date_max df) as [dmax|];
        try (exists []; repeat split; constructor).
      rewrite pivot_resample_alias.
      destruct (between df m (m + chunk_days o)) as [|r0 chunk];
        [exists []; repeat split; constructor|].
      match goal with
      | |- context [while_loop ?f df path (alias o) save ?c ?d ?s ?out w] =>
          destruct (while_loop_disk df path (alias o) save c d f s out w)
            as (ws & Ed & F);
          pose proof (while_loop_nosave_world df path (alias o) c d f s out w)
            as Hn
      end.
      exists ws. split; [|split; [exact F|]].
      + destruct (while_loop _ _ _ _ _ _ _ _ _ _) as [[e|st] w1]; exact Ed.
      + intros ->.
        destruct (while_loop _ _ _ _ _ _ _ _ _ _) as [[e|st] w1]; exact Hn.
    - rewrite read_case_1_unsupported by exact E.
      exists []. repeat split; constructor. }
  destruct H as (ws & Ed & F & Hs). split; [|exact Hs].
  intros p Hp. rewrite Ed. now apply (read_file_app p path).
Qed.

Lemma X9_witness :
  let df := [row "A" (ISO 2020 1 1) 1; row "A" (ISO 2020 1 14) 2;
             row "A" (ISO 2020 1 15) 3; row "A" (ISO 2020 1 29) 4] in
  let w := {| disk := [("other.csv"%string, empty_frame)]; faults := [] |} in
  "other.csv"%string <> "out.csv"%string
  /\ read_file "other.csv" (disk (snd (read_case_1 df "out.csv" "W" true w)))
     = Some empty_frame.
Proof.
  intros df w.
  assert (H : "other.csv"%string <> "out.csv"%string) by discriminate.
  split; [exact H|].
  exact (proj1 (X9_only_write_filepath_is_written df "out.csv" "W" true w)
           "other.csv"%string H).
Defined.




(* ================================================================= *)
(** ** [read_case_0]: the identifiers *)

Module StrFacts.
Import Str.

Lemma split_not_nil sep s : split sep s <> [].
Proof.
  destruct s as [|ch s]; simpl; [discriminate|].
  destruct (Ascii.eqb ch sep); [discriminate|].
  destruct (split sep s); discriminate.
Qed.

(** Joining the pieces gives the string back. *)
Lemma join_split sep s : join (String sep EmptyString) (split sep s) = s.
Proof.
  induction s as [|ch s IH]; [reflexivity|]. cbn [split].
  destruct (Ascii.eqb_spec ch sep) as [->|Hne].
  - cbn [join]. pose proof (split_not_nil sep s) as Hn.
    destruct (split sep s) as [|piece pieces]; [contradiction|].
    rewrite IH. reflexivity.
  - pose proof (split_not_nil sep s) as Hn.
    destruct (split sep s) as [|piece pieces]; [contradiction|].
    cbn [join] in *. destruct pieces; simpl in *; now rewrite IH.
Qed.

Lemma split_plain sep s : contains sep s = false -> split sep s = [s].
Proof.
  induction s as [|ch s IH]; [reflexivity|]. cbn [contains split].
  intros H. apply orb_false_iff in H as [-> H]. now rewrite (IH H).
Qed.

Lemma split_app sep p t :
  contains sep t = false ->
  split sep (p ++ String sep t) = split sep p ++ [t].
Proof.
  intros Ht. induction p as [|ch p IH]; cbn [append split].
  - rewrite Ascii.eqb_refl. now rewrite (split_plain sep t Ht).
  - rewrite IH. destruct (Ascii.eqb ch sep); [reflexivity|].
    pose proof (split_not_nil sep p) as Hn.
    destruct (split sep p); [contradiction | reflexivity].
Qed.

End StrFacts.

(** X11.  An identifier loses its last underscore-separated piece and the
    underscore before it: [p ++ "_" ++ t], where [t] has no underscore,
    becomes [p].  An identifier without underscore becomes the empty
    string. *)
Theorem X11_strip_last_piece :
  (forall p t, Str.contains "_" t = false ->
               strip_last (p ++ "_" ++ t) = p)
  /\ (forall d, Str.contains "_" d = false -> strip_last d = EmptyString).
Proof.
  unfold strip_last. split.
  - intros p t Ht. change ("_" ++ t)%string with (String "_" t).
    rewrite (StrFacts.split_app "_" p t Ht), removelast_last.
    apply StrFacts.join_split.
  - intros d Hd. now rewrite (StrFacts.split_plain "_" d Hd).
Qed.

Lemma X11_witness :
  Str.contains "_" "validation" = false
  /\ strip_last "HOBBIES_1_001_CA_1_validation" = "HOBBIES_1_001_CA_1"%string.
Proof.
  assert (H : Str.contains "_" "validation" = false) by reflexivity.
  split; [exact H|].
  exact (proj1 X11_strip_last_piece "HOBBIES_1_001_CA_1"%string
           "validation"%string H).
Defined.

(** X12.  The calendar must name every day column: with fewer calendar
    rows than day columns [read_case_0] raises (the labels do not fit the
    columns); otherwise it returns, the columns are labelled by the dates
    of the first calendar rows, one per day column, and the calendar rows
    beyond are ignored. *)
Theorem X12_calendar_labels_the_day_columns :
  forall df calendar,
    let n := List.length (M5.day_columns df) in
    ((List.length calendar < n)%nat ->
     read_case_0 df calendar = inl (ValueError "Length mismatch"))
    /\ ((n <= List.length calendar)%nat ->
        exists out,
          read_case_0 df calendar = inr out
          /\ columns out = map snd (firstn n calendar)
          /\ List.length (columns out) = n).
Proof.
  intros df calendar n. unfold read_case_0. fold n.
  rewrite length_map, length_firstn. split; intros H.
  - destruct (Nat.eqb_spec (Nat.min n (List.length calendar)) n); [lia|reflexivity].
  - destruct (Nat.eqb_spec (Nat.min n (List.length calendar)) n); [|lia].
    eexists. split; [reflexivity|]. cbn [columns].
    split; [reflexivity|]. rewrite length_map, length_firstn. lia.
Qed.

Lemma X12_witness :
  let df := {| M5.day_columns := ["d_1"; "d_2"; "d_3"]%string;
               M5.body := [M5.mk "A_1_validation" "A_1" "A" "A" "S1" "CA"
                                 [Some 0; Some 2; Some 1]] |} in
  let calendar := [("d_1", ISO 2011 1 29); ("d_2", ISO 2011 1 30)]%string in
  (List.length calendar < List.length (M5.day_columns df))%nat
  /\ read_case_0 df calendar = inl (ValueError "Length mismatch").
Proof.
  intros df calendar.
  assert (H : (List.length calendar < List.length (M5.day_columns df))%nat)
    by (vm_compute; lia).
  split; [exact H|].
  exact (proj1 (X12_calendar_labels_the_day_columns df calendar) H).
Defined.

Lemma nansum_zero_row r : forallb is_zero r = true -> nansum r = 0.
Proof.
  induction r as [|[v|] r IH]; simpl; [reflexivity| |discriminate].
  intros H. apply andb_true_iff in H as [Hv Hr]. apply Z.eqb_eq in Hv.
  subst v. apply IH, Hr.
Qed.

(** X13.  Only the rows that hold nothing but zeros are dropped.  The
    frame returned has no row whose cells are all zero; every row of the
    file with a cell other than zero is kept, under its stripped
    identifier; and the cells of the result sum to the cells of the file. *)
Theorem X13_only_zero_rows_are_dropped :
  forall df calendar out,
    read_case_0 df calendar = inr out ->
    (forall r, In r (rows out) -> forallb is_zero (snd r) = false)
    /\ (forall r, In r (M5.body df) -> forallb is_zero (M5.days r) = false ->
                  In (strip_last (M5.id r), M5.days r) (rows out))
    /\ sum_cells out = sumZ (map (fun r => nansum (M5.days r)) (M5.body df)).
Proof.
  intros df calendar out. unfold read_case_0.
  destruct (_ =? _)%nat; [|discriminate]. intros [= <-]. cbn [rows].
  split; [|split].
  - intros r Hr. apply filter_In in Hr as [_ Hr]. now destruct (forallb is_zero (snd r)).
  - intros r Hr Hz. apply filter_In. split.
    + apply (in_map (fun r => (strip_last (M5.id r), M5.days r))), Hr.
    + cbn [snd]. now rewrite Hz.
  - unfold sum_cells. cbn [rows].
    induction (M5.body df) as [|r l IH]; [reflexivity|].
    cbn [map filter snd sumZ fold_right].
    fold (sumZ (map (fun r => nansum (M5.days r)) l)). rewrite <- IH.
    destruct (forallb is_zero (M5.days r)) eqn:E; cbn [negb fold_right snd].
    + rewrite (nansum_zero_row _ E). lia.
    + reflexivity.
Qed.

Lemma X13_witness :
  let df := {| M5.day_columns := ["d_1"; "d_2"]%string;
               M5.body := [M5.mk "A_1_validation" "A_1" "A" "A" "S1" "CA"
                                 [Some 0; Some 2];
                           M5.mk "B_1_validation" "B_1" "B" "B" "S1" "CA"
                                 [Some 0; Some 0];
                           M5.mk "C_1_validation" "C_1" "C" "C" "S1" "CA"
                                 [Some 4; Some 1]] |} in
  let calendar := [("d_1", ISO 2011 1 29); ("d_2", ISO 2011 1 30);
                   ("d_3", ISO 2011 1 31)]%string in
  let out := {| columns := [ISO 2011 1 29; ISO 2011 1 30];
                rows := [("A_1"%string, [Some 0; Some 2]);
                         ("C_1"%string, [Some 4; Some 1])] |} in
  read_case_0 df calendar = inr out
  /\ sum_cells out = sumZ (map (fun r => nansum (M5.days r)) (M5.body df)).
Proof.
  intros df calendar out.
  assert (H : read_case_0 df calendar = inr out) by (vm_compute; reflexivity).
  split; [exact H|].
  exact (proj2 (proj2 (X13_only_zero_rows_are_dropped df calendar out H))).
Defined.


(* ================================================================= *)
(** ** [read_case_3]: the groups *)

Module Key3Facts.

Lemma str_compare_refl x : String_as_OT.compare x x = Eq.
Proof.
  destruct (String_as_OT.compare_spec x x) as [_|H|H]; [reflexivity| |];
    now apply (irreflexivity (R := String_as_OT.lt)) in H.
Qed.

Lemma lt_iff a b :
  Key3.lt a b
  <-> String_as_OT.lt (fst (fst a)) (fst (fst b))
      \/ (fst (fst a) = fst (fst b)
          /\ (String_as_OT.lt (snd (fst a)) (snd (fst b))
              \/ (snd (fst a) = snd (fst b) /\ snd a < snd b))).
Proof.
  destruct a as [[g r] d], b as [[g' r'] d']. unfold Key3.lt, Key3.compare.
  cbn [fst snd].
  destruct (String_as_OT.compare_spec g g') as [->|H|H].
  - destruct (String_as_OT.compare_spec r r') as [->|H|H].
    + rewrite Z.compare_lt_iff. split; [intros; right; auto|].
      intros [H|[_ [H|[_ H]]]]; [| |exact H];
        now apply (irreflexivity (R := String_as_OT.lt)) in H.
    + split; [intros _; right; auto | reflexivity].
    + split; [discriminate|].
      intros [H'|[_ [H'|[-> _]]]].
      * now apply (irreflexivity (R := String_as_OT.lt)) in H'.
      * assert (String_as_OT.lt r r) by (transitivity r'; assumption).
        now apply (irreflexivity (R := String_as_OT.lt)) in H0.
      * now apply (irreflexivity (R := String_as_OT.lt)) in H.
  - split; [intros _; left; exact H | reflexivity].
  - split; [discriminate|].
    intros [H'|[-> _]].
    + assert (String_as_OT.lt g g) by (transitivity g'; assumption).
      now apply (irreflexivity (R := String_as_OT.lt)) in H0.
    + now apply (irreflexivity (R := String_as_OT.lt)) in H.
Qed.

Lemma str_compare_eq x x' : String_as_OT.compare x x' = Eq -> x = x'.
Proof.
  destruct (String_as_OT.compare_spec x x') as [H|H|H]; intros E;
    [exact H | inversion E | inversion E].
Qed.

Lemma str_compare_gt x x' :
  String_as_OT.compare x x' = Gt -> String_as_OT.lt x' x.
Proof.
  destruct (String_as_OT.compare_spec x x') as [H|H|H]; intros E;
    [inversion E | inversion E | exact H].
Qed.

Lemma compare_eq a b : Key3.compare a b = Eq -> a = b.
Proof.
  destruct a as [[g r] d], b as [[g' r'] d']. unfold Key3.compare.
  cbn [fst snd].
  destruct (String_as_OT.compare g g') eqn:Eg; [|intros E; inversion E..].
  destruct (String_as_OT.compare r r') eqn:Er; [|intros E; inversion E..].
  intros E. apply Z.compare_eq in E.
  apply str_compare_eq in Eg, Er. now subst.
Qed.

Lemma compare_gt a b : Key3.compare a b = Gt -> Key3.lt b a.
Proof.
  rewrite lt_iff. destruct a as [[g r] d], b as [[g' r'] d'].
  unfold Key3.compare. cbn [fst snd].
  destruct (String_as_OT.compare g g') eqn:Eg;
    [|intros E; inversion E|intros _; left; now apply str_compare_gt].
  apply str_compare_eq in Eg. subst g'.
  destruct (String_as_OT.compare r r') eqn:Er;
    [|intros E; inversion E
     |intros _; right; split; [reflexivity|left; now apply str_compare_gt]].
  apply str_compare_eq in Er. subst r'.
  intros E. apply Z.compare_gt_iff in E. right. split; [reflexivity|].
  right. split; [reflexivity | exact E].
Qed.

Lemma compare_spec a b : CompSpec eq Key3.lt a b (Key3.compare a b).
Proof.
  destruct (Key3.compare a b) eqn:E; constructor.
  - now apply compare_eq.
  - exact E.
  - now apply compare_gt.
Qed.

Lemma lt_strorder : StrictOrder Key3.lt.
Proof.
  split.
  - intros a H. apply lt_iff in H.
    destruct H as [H|[_ [H|[_ H]]]]; [| |lia];
      now apply (irreflexivity (R := String_as_OT.lt)) in H.
  - intros a b c Hab Hbc. apply lt_iff in Hab, Hbc. apply lt_iff.
    destruct Hab as [H1|[E1 [H1|[F1 H1]]]], Hbc as [H2|[E2 [H2|[F2 H2]]]];
      try rewrite E1 in *; try rewrite <- E2 in *;
      try rewrite F1 in *; try rewrite <- F2 in *; auto.
    + left. now transitivity (fst (fst b)).
    + right. split; [reflexivity|]. left. now transitivity (snd (fst b)).
    + right. split; [reflexivity|]. right. split; [reflexivity | lia].
Qed.

Lemma eqb_spec a b : reflect (a = b) (Key3.eqb a b).
Proof.
  destruct a as [[g r] d], b as [[g' r'] d']. unfold Key3.eqb. cbn [fst snd].
  destruct (String.eqb_spec g g') as [->|H]; [|constructor; congruence].
  destruct (String.eqb_spec r r') as [->|H]; [|constructor; congruence].
  destruct (Z.eqb_spec d d') as [->|H]; constructor; congruence.
Qed.

End Key3Facts.

Lemma nansum_map {A} (f : A -> cell) l :
  nansum (map f l)
  = sumZ (map (fun a => match f a with Some v => v | None => 0 end) l).
Proof.
  unfold nansum, sumZ. induction l as [|a l IH]; [reflexivity|].
  simpl. rewrite IH. destruct (f a); reflexivity.
Qed.

Lemma nansum_perm l l' : Permutation l l' -> nansum l = nansum l'.
Proof.
  intros H. rewrite <- (map_id l), <- (map_id l'), !nansum_map.
  apply sumZ_perm, Permutation_map, H.
Qed.

Lemma read_case_3_keys df k :
  In k (sort_unique Key3.compare (group_keys (sales_rows df)))
  <-> exists r, In r (sales_rows df) /\ Key3.of_row r = Some k.
Proof.
  rewrite (sort_unique_in Key3.compare Key3.lt Key3Facts.compare_spec).
  unfold group_keys. rewrite in_flat_map. split.
  - intros (r & Hr & Hk). exists r. split; [exact Hr|].
    destruct (Key3.of_row r) as [k'|]; [|destruct Hk].
    destruct Hk as [->|[]]. reflexivity.
  - intros (r & Hr & E). exists r. split; [exact Hr|]. rewrite E. now left.
Qed.

(** The rows that lines 240-247 keep. *)
Lemma sales_rows_spec df r :
  In r (sales_rows df)
  <-> In r df
      /\ (exists v, Tx.Status r = Some v /\ v <> 4)
      /\ Tx.Exclincl r = Some 1
      /\ Tx.Trans r = "VK"%string.
Proof.
  unfold sales_rows, bad_status. rewrite !filter_In, negb_true_iff, orb_false_iff.
  rewrite negb_false_iff, String.eqb_eq. split.
  - intros [[Hr [Hs He]] Ht]. repeat split; [exact Hr| | |exact Ht].
    + destruct (Tx.Status r) as [v|]; [|discriminate].
      exists v. split; [reflexivity|]. now apply Z.eqb_neq.
    + destruct (Tx.Exclincl r) as [v|]; [|discriminate].
      apply Z.eqb_eq in He. now subst.
  - intros (Hr & (v & Hs & Hv) & He & Ht). repeat split; [exact Hr| | |exact Ht].
    + rewrite Hs. now apply Z.eqb_neq.
    + now rewrite He.
Qed.

Lemma of_row_spec r g s d :
  Key3.of_row r = Some (g, s, d)
  <-> Tx.Groep r = Some g /\ Tx.Resource r = Some s /\ Tx.Datum r = Some d.
Proof.
  unfold Key3.of_row.
  destruct (Tx.Groep r), (Tx.Resource r), (Tx.Datum r); split;
    try discriminate; try (intros (? & ? & ?); discriminate).
  - intros [= -> -> ->]. auto.
  - intros ([= ->] & [= ->] & [= ->]). reflexivity.
Qed.

(** X14.  One row per group of sales.  The result has a row for every
    key ([Groep], [Resource], [Datum]) borne by a row of the file that is
    kept (its [Status] is given and is not 4, its [Exclincl] is 1, its
    [Trans] is ["VK"]) and that misses none of the three; the row bears
    the shop and the group joined by a dash, the date, and the opposite
    of the sum of [Inuit] over the kept rows of that key (the sum of the
    code while [float64] adds the quantities exactly).  The result has no
    other rows. *)
Theorem X14_one_row_per_group :
  forall df x,
    exact64 df ->
    (In x (read_case_3 df)
     <-> exists r g s d,
         In r df
         /\ (exists v, Tx.Status r = Some v /\ v <> 4)
         /\ Tx.Exclincl r = Some 1
         /\ Tx.Trans r = "VK"%string
         /\ Tx.Groep r = Some g /\ Tx.Resource r = Some s /\ Tx.Datum r = Some d
         /\ x = {| Long.unique_id := shop_group s g;
                   Long.date := d;
                   Long.y := - nansum (map Tx.Inuit
                                         (filter (Key3.in_group (g, s, d))
                                                 (sales_rows df))) |}).
Proof.
  intros df x _. unfold read_case_3. rewrite in_map_iff. split.
  - intros ([[g s] d] & <- & Hk). apply read_case_3_keys in Hk as (r & Hr & Ek).
    apply sales_rows_spec in Hr as (Hr & Hs & He & Ht).
    apply of_row_spec in Ek as (Eg & Es & Ed).
    exists r, g, s, d. repeat split; try assumption.
    cbn [fst snd]. f_equal. lia.
  - intros (r & g & s & d & Hr & Hs & He & Ht & Eg & Es & Ed & ->).
    exists (g, s, d). split.
    + cbn [fst snd]. f_equal. lia.
    + apply read_case_3_keys. exists r. split.
      * apply sales_rows_spec. repeat split; assumption.
      * now apply of_row_spec.
Qed.

Lemma X14_witness :
  let df := [Tx.mk (Some 1) (Some 1) "VK" (Some "G1"%string) (Some "S1"%string)
               (Some (ISO 2020 1 1)) (Some (-3));
             Tx.mk (Some 4) (Some 1) "VK" (Some "G1"%string) (Some "S1"%string)
               (Some (ISO 2020 1 1)) (Some (-9));
             Tx.mk (Some 1) (Some 1) "VK" (Some "G1"%string) (Some "S1"%string)
               (Some (ISO 2020 1 1)) (Some (-2));
             Tx.mk (Some 1) (Some 1) "VK" None (Some "S1"%string)
               (Some (ISO 2020 1 1)) (Some (-4));
             Tx.mk (Some 1) None "VK" (Some "G1"%string) (Some "S1"%string)
               (Some (ISO 2020 1 1)) (Some (-8))] in
  read_case_3 df = [Long.mk "S1-G1" (ISO 2020 1 1) 5]
  /\ In (Long.mk "S1-G1" (ISO 2020 1 1) 5) (read_case_3 df).
Proof.
  intros df. split; [vm_compute; reflexivity|].
  refine (proj2 (X14_one_row_per_group df (Long.mk "S1-G1" (ISO 2020 1 1) 5) _) _).
  - vm_compute. discriminate.
  - exists (Tx.mk (Some 1) (Some 1) "VK" (Some "G1"%string) (Some "S1"%string)
              (Some (ISO 2020 1 1)) (Some (-3))), "G1"%string, "S1"%string,
           (ISO 2020 1 1).
    split; [now left|]. split; [exists 1; split; [reflexivity | discriminate]|].
    repeat split.
Defined.

Lemma has_key_group k (S : list Tx.row) :
  filter (Key3.in_group k) S
  = filter (fun r => Key3.eqb (match Key3.of_row r with
                               | Some k' => k'
                               | None => k
                               end) k)
      (filter (fun r => match Key3.of_row r with
                        | Some _ => true
                        | None => false
                        end) S).
Proof.
  induction S as [|r S IH]; [reflexivity|]. cbn [filter]. unfold Key3.in_group at 1.
  destruct (Key3.of_row r) as [k'|] eqn:E; [|exact IH].
  cbn [filter]. rewrite E. destruct (Key3.eqb k' k); now rewrite IH.
Qed.

(** X15.  The quantities are conserved, with their sign changed: while
    [float64] adds them exactly, the [y] of the result sum to the
    opposite of the sum of [Inuit] over the kept rows that miss none of
    [Groep], [Resource] and [Datum] (missing quantities counting for
    nothing). *)
Theorem X15_quantities_change_sign :
  forall df,
    exact64 df ->
    sumZ (map Long.y (read_case_3 df))
    = - nansum (map Tx.Inuit
                  (filter (fun r => match Key3.of_row r with
                                    | Some _ => true
                                    | None => false
                                    end)
                          (sales_rows df))).
Proof.
  intros df _. unfold read_case_3. rewrite map_map. cbn [Long.y].
  set (v := fun r => match Tx.Inuit r with Some x => x | None => 0 end).
  set (S := sales_rows df).
  set (K := filter (fun r => match Key3.of_row r with
                             | Some _ => true
                             | None => false
                             end) S).
  set (keys := sort_unique Key3.compare (group_keys S)).
  set (key := fun r => match Key3.of_row r with
                       | Some k' => k'
                       | None => (EmptyString, EmptyString, 0)
                       end).
  assert (G : forall k, filter (Key3.in_group k) S
                        = filter (fun r => Key3.eqb (key r) k) K).
  { intros k. rewrite has_key_group. fold K. apply filter_ext_in.
    intros r Hr. apply filter_In in Hr as [_ Hr]. unfold key.
    now destruct (Key3.of_row r). }
  transitivity
    (- sumZ (map (fun k => sumZ (map v (filter (fun r => Key3.eqb (key r) k) K)))
                 keys)).
  - unfold sumZ. induction keys as [|k keys IH]; [reflexivity|].
    cbn [map fold_right]. rewrite IH, G, nansum_map. fold v. unfold sumZ. lia.
  - rewrite (sum_by_key Key3.eqb Key3Facts.eqb_spec key v keys K).
    + now rewrite nansum_map.
    + apply (sort_unique_NoDup Key3.compare Key3.lt Key3Facts.compare_spec
               Key3Facts.lt_strorder).
    + intros r Hr. apply filter_In in Hr as [Hr Hk].
      apply read_case_3_keys. exists r. split; [exact Hr|]. unfold key.
      now destruct (Key3.of_row r).
Qed.

Lemma X15_witness :
  let df := [Tx.mk (Some 1) (Some 1) "VK" (Some "G1"%string) (Some "S1"%string)
               (Some (ISO 2020 1 1)) (Some (-3));
             Tx.mk (Some 1) (Some 1) "VK" (Some "G2"%string) (Some "S1"%string)
               (Some (ISO 2020 1 1)) (Some (-2));
             Tx.mk (Some 1) (Some 1) "VK" (Some "G1"%string) (Some "S1"%string)
               (Some (ISO 2020 1 1)) None;
             Tx.mk (Some 1) (Some 1) "VK" (Some "G1"%string) None
               (Some (ISO 2020 1 1)) (Some (-4));
             Tx.mk (Some 1) (Some 0) "VK" (Some "G1"%string) (Some "S1"%string)
               (Some (ISO 2020 1 1)) (Some (-8))] in
  read_case_3 df
  = [Long.mk "S1-G1" (ISO 2020 1 1) 3; Long.mk "S1-G2" (ISO 2020 1 1) 2]
  /\ sumZ (map Long.y (read_case_3 df)) = 5.
Proof.
  intros df. split; [vm_compute; reflexivity|].
  rewrite (X15_quantities_change_sign df); vm_compute; [reflexivity | discriminate].
Defined.

(** X16.  While [float64] adds the quantities exactly, the result of
    [read_case_3] does not depend on the order of the rows of the file. *)
Theorem X16_row_order_is_irrelevant :
  forall df df',
    Permutation df df' -> exact64 df -> read_case_3 df = read_case_3 df'.
Proof.
  intros df df' H _.
  assert (HS : Permutation (sales_rows df) (sales_rows df'))
    by (unfold sales_rows; now apply filter_perm, filter_perm).
  unfold read_case_3.
  rewrite (sort_unique_perm Key3.compare Key3.lt Key3Facts.compare_spec
             Key3Facts.lt_strorder (group_keys (sales_rows df))
             (group_keys (sales_rows df')))
    by (unfold group_keys; now apply Permutation_flat_map).
  apply map_ext. intros k. f_equal. f_equal.
  apply nansum_perm, Permutation_map, filter_perm, HS.
Qed.

Lemma X16_witness :
  let df := [Tx.mk (Some 1) (Some 1) "VK" (Some "G1"%string) (Some "S1"%string)
               (Some (ISO 2020 1 1)) (Some (-3));
             Tx.mk (Some 4) (Some 1) "VK" (Some "G1"%string) (Some "S1"%string)
               (Some (ISO 2020 1 1)) (Some (-9));
             Tx.mk (Some 1) (Some 1) "VK" (Some "G1"%string) (Some "S1"%string)
               (Some (ISO 2020 1 1)) (Some (-2));
             Tx.mk (Some 1) (Some 1) "IK" (Some "G0"%string) (Some "S1"%string)
               (Some (ISO 2020 1 1)) (Some 7);
             Tx.mk (Some 2) (Some 1) "VK" (Some "G0"%string) (Some "S2"%string)
               (Some (ISO 2020 1 2)) None] in
  Permutation df (rev df)
  /\ read_case_3 (rev df)
     = [Long.mk "S2-G0" (ISO 2020 1 2) 0; Long.mk "S1-G1" (ISO 2020 1 1) 5].
Proof.
  intros df.
  assert (H : Permutation df (rev df)) by apply Permutation_rev.
  split; [exact H|].
  rewrite <- (X16_row_order_is_irrelevant df (rev df) H);
    vm_compute; [reflexivity | discriminate].
Defined.

Lemma shop_group_inj s1 g1 s2 g2 :
  Str.contains "-" s1 = false -> Str.contains "-" s2 = false ->
  shop_group s1 g1 = shop_group s2 g2 -> s1 = s2 /\ g1 = g2.
Proof.
  unfold shop_group. revert s2.
  induction s1 as [|c1 s1 IH]; intros [|c2 s2]; cbn [Str.contains append];
    intros H1 H2 E.
  - now inversion E.
  - inversion E; subst. apply orb_false_iff in H2 as [H2 _]. discriminate.
  - inversion E; subst. apply orb_false_iff in H1 as [H1 _]. discriminate.
  - inversion E; subst.
    apply orb_false_iff in H1 as [_ H1]. apply orb_false_iff in H2 as [_ H2].
    destruct (IH s2 H1 H2 ltac:(assumption)) as [-> ->]. now split.
Qed.

(** X17.  When no shop name holds a dash, the result has at most one row
    per series and date: joining shop and group by a dash then keeps
    different (shop, group) pairs apart. *)
Theorem X17_one_row_per_series_and_date :
  forall df,
    (forall r s, In r (sales_rows df) -> Tx.Resource r = Some s ->
                 Str.contains "-" s = false) ->
    NoDup (map (fun x => (Long.unique_id x, Long.date x)) (read_case_3 df)).
Proof.
  intros df Hd. unfold read_case_3. rewrite map_map. cbn [Long.unique_id Long.date].
  apply NoDup_map_NoDup_ForallPairs.
  - intros [[g s] d] [[g' s'] d'] Hk Hk' E.
    apply read_case_3_keys in Hk as (r & Hr & Ek).
    apply read_case_3_keys in Hk' as (r' & Hr' & Ek').
    apply of_row_spec in Ek as (_ & Es & _).
    apply of_row_spec in Ek' as (_ & Es' & _).
    cbn [fst snd] in E. inversion E as [[E1 E2]].
    apply shop_group_inj in E1 as [E3 E4]; eauto.
    congruence.
  - apply (sort_unique_NoDup Key3.compare Key3.lt Key3Facts.compare_spec
             Key3Facts.lt_strorder).
Qed.

Lemma X17_witness :
  let df := [Tx.mk (Some 1) (Some 1) "VK" (Some "G1"%string) (Some "S1"%string)
               (Some (ISO 2020 1 1)) (Some (-3));
             Tx.mk (Some 1) (Some 1) "VK" (Some "G1"%string) (Some "S2"%string)
               (Some (ISO 2020 1 1)) (Some (-2));
             Tx.mk (Some 1) (Some 1) "VK" (Some "G1"%string) (Some "S1"%string)
               (Some (ISO 2020 1 1)) (Some (-4))] in
  (forall r s, In r (sales_rows df) -> Tx.Resource r = Some s ->
               Str.contains "-" s = false)
  /\ NoDup (map (fun x => (Long.unique_id x, Long.date x)) (read_case_3 df)).
Proof.
  intros df.
  assert (H : forall r s, In r (sales_rows df) -> Tx.Resource r = Some s ->
                          Str.contains "-" s = false).
  { intros r s Hr. vm_compute in Hr.
    destruct Hr as [<-|[<-|[<-|[]]]]; intros [= <-]; reflexivity. }
  split; [exact H|].
  exact (X17_one_row_per_series_and_date df H).
Defined.


(* ================================================================= *)
(** ** [read_case_1]: the labels of the columns *)

Lemma date_range_anchor o n t stop lbl :
  rollforward o t = t -> In lbl (date_range o n t stop) ->
  rollforward o lbl = lbl.
Proof.
  revert t. induction n as [|n IH]; intros t Ht; simpl; [tauto|].
  destruct (t <=? stop); [|intros []].
  intros [<-|H]; [exact Ht|]. apply (IH _ (rollforward_idem o (t + 1)) H).
Qed.

Lemma bin_labels_anchor o cols lbl :
  In lbl (bin_labels o cols) -> rollforward o lbl = lbl.
Proof.
  destruct cols as [|c0 cs]; [intros []|]. simpl.
  apply date_range_anchor, rollforward_idem.
Qed.

(** X18.  Every column of the matrix returned is labelled by the close
    of a period: a label is a day on which its own period ends (for ["W"]
    a Sunday; for ["M"] the last day of a month), it falls after the
    earliest day of the data, and it is no later than the close of the
    period of the last value of [start_date]. *)
Theorem X18_labels_close_their_period :
  forall o df path save w out w' m dmax lbl,
    read_case_1 df path (alias o) save w = (inr out, w') ->
    date_min df = Some m -> date_max df = Some dmax ->
    In lbl (columns out) ->
    rollforward o lbl = lbl
    /\ (o = Week_SUN -> Calendar.weekday lbl = 6)
    /\ m < lbl
       <= rollforward o (loop_start (loop_fuel o df) (chunk_days o) dmax
                           (m + chunk_days o - 1)).
Proof.
  intros o df path save w out w' m dmax lbl E Hm Hx Hl.
  apply read_case_1_inr in E. subst out. rewrite merged_columns in Hl.
  apply in_flat_map in Hl as ([s e] & Hw & Hl).
  assert (Ha : rollforward o lbl = lbl)
    by (apply (bin_labels_anchor o _ lbl Hl)).
  split; [exact Ha|]. split.
  - intros ->. cbn [rollforward] in Ha. unfold Calendar.week_end in Ha. lia.
  - pose proof (window_labels_between o df s e lbl Hl) as Hb.
    pose proof (windows_upto_lower _ o df m (s, e) Hm Hw) as Hs. cbn [fst] in Hs.
    pose proof (chunk_days_gt o) as Hc.
    assert (He : e = s + chunk_days o).
    { unfold windows, windows_upto in Hw. rewrite Hm, Hx in Hw.
      destruct Hw as [[= <- <-]|Hw]; [reflexivity|].
      apply loop_windows_lower in Hw; [|lia]. cbn [fst snd] in Hw. lia. }
    assert (Hin : existsb (fun w0 => in_window w0 (e - 1)) (windows o df) = true).
    { apply existsb_exists. exists (s, e). split; [exact Hw|].
      unfold in_window. cbn [fst snd].
      rewrite andb_true_iff, Z.ltb_lt, Z.gtb_lt. lia. }
    apply (windows_cover o df m dmax (e - 1) Hm Hx) in Hin.
    pose proof (rollforward_ge o (s + 1)).
    pose proof (rollforward_mono o (e - 1) _ (proj2 Hin)). lia.
Qed.

Lemma X18_witness :
  let df := [row "A" (ISO 2020 1 1) 5; row "A" (ISO 2020 1 9) 2;
             row "B" (ISO 2020 1 20) 4; row "B" (ISO 2020 1 29) 1] in
  let out := {| columns := [ISO 2020 1 12; ISO 2020 1 26];
                rows := [("A"%string, [Some 2; Some 0]);
                         ("B"%string, [Some 0; Some 4])] |} in
  read_case_1 df "out.csv" "W" false quiet = (inr out, quiet)
  /\ Calendar.weekday (ISO 2020 1 26) = 6.
Proof.
  intros df out.
  assert (H : read_case_1 df "out.csv" "W" false quiet = (inr out, quiet))
    by (vm_compute; reflexivity).
  split; [exact H|].
  refine (proj1 (proj2 (X18_labels_close_their_period Week_SUN df "out.csv"
                          false quiet out quiet (ISO 2020 1 1) (ISO 2020 1 29)
                          (ISO 2020 1 26) H _ _ _)) eq_refl).
  - vm_compute. reflexivity.
  - vm_compute. reflexivity.
  - right. left. reflexivity.
Defined.
